(** * Science-Fair-Music-Analysis: the frame-wise scoring pipeline of MAIN.cjs

    A shallow embedding of [measureAudioCharacteristics] (src/MAIN.cjs):
    the frame loop, the per-feature try/catch blocks, [calculateStats],
    the five score formulas and [createBar].

    Numbers.  A JavaScript number is modelled by [num]: an exact rational,
    or one of the three IEEE special values +Infinity, -Infinity and NaN.
    Arithmetic on finite values is exact (rounding of binary64 and the sign
    of zero are not modelled); the special values follow IEEE 754 as
    JavaScript applies it (0/0 is NaN, every comparison with NaN is false,
    [Math.min] and [Math.max] return NaN when an argument is NaN).
    Array lengths and loop counters, which are integers in the program, are
    modelled by [Z].
    Where rounding decides the answer -- the mean of [calculateStats] -- the
    computation is also given on binary64 itself ([mean64], over the
    primitive floats), and the statements about its rounding are made there.

    Essentia.  The DSP primitives of essentia.js are external: they are the
    fields of the record [Essentia], each returning [None] when the call
    throws. *)

From Stdlib Require Import ZArith QArith Qround Qminmax Lqa Lia List Bool.
From Stdlib Require Import String Ascii Permutation Sorted.
From Stdlib Require PrimFloat Uint63.
Import ListNotations.

Local Open Scope Q_scope.

(** ** JavaScript numbers *)

Inductive num : Type :=
| Fin (q : Q)
| PInf
| NInf
| NaN.

Declare Scope num_scope.
Delimit Scope num_scope with num.
Bind Scope num_scope with num.

Definition ofZ (z : Z) : num := Fin (inject_Z z).

(** Sign of a number that is not NaN: [Lt], [Eq] (zero) or [Gt]. *)
Definition sgn (x : num) : comparison :=
  match x with
  | Fin q => q ?= 0
  | PInf => Gt
  | NInf => Lt
  | NaN => Eq
  end.

Definition neg (x : num) : num :=
  match x with
  | Fin q => Fin (- q)
  | PInf => NInf
  | NInf => PInf
  | NaN => NaN
  end.

Definition add (x y : num) : num :=
  match x, y with
  | NaN, _ | _, NaN => NaN
  | Fin a, Fin b => Fin (a + b)
  | PInf, NInf | NInf, PInf => NaN
  | PInf, _ | _, PInf => PInf
  | NInf, _ | _, NInf => NInf
  end.

Definition sub (x y : num) : num := add x (neg y).

(** An infinity of the sign [c]; [Eq] stands for the invalid 0 * Infinity. *)
Definition inf_of (c : comparison) : num :=
  match c with
  | Gt => PInf
  | Lt => NInf
  | Eq => NaN
  end.

Definition sgn_mul (a b : comparison) : comparison :=
  match a, b with
  | Eq, _ | _, Eq => Eq
  | Gt, c => c
  | Lt, c => CompOpp c
  end.

Definition mul (x y : num) : num :=
  match x, y with
  | NaN, _ | _, NaN => NaN
  | Fin a, Fin b => Fin (a * b)
  | _, _ => inf_of (sgn_mul (sgn x) (sgn y))
  end.

(** Division.  A finite non-zero value over zero is an infinity (the zero
    divisor is taken to be +0), 0/0 and Infinity/Infinity are NaN. *)
Definition div (x y : num) : num :=
  match x, y with
  | NaN, _ | _, NaN => NaN
  | Fin a, Fin b =>
      if Qeq_bool b 0 then inf_of (a ?= 0) else Fin (a / b)
  | Fin _, _ => Fin 0
  | _, Fin b =>
      inf_of (sgn_mul (sgn x) (if Qeq_bool b 0 then Gt else b ?= 0))
  | _, _ => NaN
  end.

Infix "+" := add : num_scope.
Infix "-" := sub : num_scope.
Infix "*" := mul : num_scope.
Infix "/" := div : num_scope.

(** [x < y] and [x > y] of JavaScript: false as soon as one side is NaN. *)
Definition ltb (x y : num) : bool :=
  match x, y with
  | NaN, _ | _, NaN => false
  | Fin a, Fin b => match a ?= b with Lt => true | _ => false end
  | NInf, NInf => false
  | NInf, _ => true
  | _, PInf => match x with PInf => false | _ => true end
  | _, _ => false
  end.

Definition gtb (x y : num) : bool := ltb y x.

(** [Math.min] and [Math.max]. *)
Definition Math_min (x y : num) : num :=
  match x, y with
  | NaN, _ | _, NaN => NaN
  | _, _ => if ltb y x then y else x
  end.

Definition Math_max (x y : num) : num :=
  match x, y with
  | NaN, _ | _, NaN => NaN
  | _, _ => if ltb x y then y else x
  end.

(** [Math.floor], and [Math.round], which rounds halves towards +Infinity. *)
Definition Math_floor (x : num) : num :=
  match x with
  | Fin q => ofZ (Qfloor q)
  | _ => x
  end.

Definition Math_round (x : num) : num :=
  match x with
  | Fin q => ofZ (Qfloor (q + (1 # 2)))
  | _ => x
  end.

Definition finite (x : num) : Prop :=
  match x with Fin _ => True | _ => False end.

(** The rational value of a finite number (0 for the special values). *)
Definition val (x : num) : Q :=
  match x with Fin q => q | _ => 0 end.

(** Equality of numbers as values: [Qeq] on finite ones. *)
Definition num_eq (x y : num) : Prop :=
  match x, y with
  | Fin a, Fin b => a == b
  | PInf, PInf | NInf, NInf | NaN, NaN => True
  | _, _ => False
  end.

Infix "=n=" := num_eq (at level 70, no associativity).

(** ** Arrays and strings *)

(** A JavaScript value read from an array or an object: a number, or
    [None] for [undefined]. *)
Definition value : Type := option num.

(** [ToNumber]: [undefined] becomes NaN. *)
Definition toNumber (v : value) : num :=
  match v with Some x => x | None => NaN end.

Definition length_ {A} (l : list A) : Z := Z.of_nat (List.length l).

(** [ToIntegerOrInfinity] followed by the clamping of [slice]: a negative
    index counts from the end, and the result lies within the array. *)
Definition trunc (q : Q) : Z := (Qnum q ÷ Zpos (Qden q))%Z.

Definition rel_index (len : Z) (k : num) : Z :=
  match k with
  | NaN => 0
  | PInf => len
  | NInf => 0
  | Fin q =>
      let n := trunc q in
      if (n <? 0)%Z then Z.max (len + n) 0 else Z.min n len
  end.

(** [arr.slice(from, to)]. *)
Definition slice {A} (l : list A) (from to : num) : list A :=
  let len := length_ l in
  let a := rel_index len from in
  let b := rel_index len to in
  firstn (Z.to_nat (b - a)) (skipn (Z.to_nat a) l).

(** [arr.slice(from)]. *)
Definition slice_from {A} (l : list A) (from : num) : list A :=
  slice l from (ofZ (length_ l)).

(** [arr.reduce(f, init)]. *)
Definition reduce {A B} (f : B -> A -> B) (init : B) (l : list A) : B :=
  fold_left f l init.

(** [arr[n]] for a number [n]: [undefined] unless [n] is an integer index
    inside the array. *)
Definition index (l : list num) (n : num) : value :=
  match n with
  | Fin q =>
      if Qeq_bool (inject_Z (Qfloor q)) q && (0 <=? Qfloor q)%Z
      then nth_error l (Z.to_nat (Qfloor q))
      else None
  | _ => None
  end.

(** [[...arr].sort(cmp)]: a stable insertion sort driven by the sign of
    [cmp x y]; a NaN from the comparator counts as 0.  With a consistent
    comparator this is the order the engine produces.  [a - b] is consistent
    only on finite entries: with a NaN (or two equal infinities) among them
    the comparator returns NaN, the resulting order is left to the engine,
    and this function does not predict it.  The statements about sorted
    series therefore assume finite entries. *)
Fixpoint insert (cmp : num -> num -> num) (x : num) (l : list num) : list num :=
  match l with
  | [] => [x]
  | y :: t => if gtb (cmp x y) (Fin 0) then y :: insert cmp x t else x :: y :: t
  end.

Definition sort (cmp : num -> num -> num) (l : list num) : list num :=
  fold_right (insert cmp) [] l.

Fixpoint repeat_string (s : string) (n : nat) : string :=
  match n with
  | O => EmptyString
  | S k => append s (repeat_string s k)
  end.

(** [s.repeat(count)]: the count is truncated towards zero, NaN counts as
    0, and a negative or infinite count throws a RangeError ([None]). *)
Definition String_repeat (s : string) (count : num) : option string :=
  match count with
  | NaN => Some EmptyString
  | PInf | NInf => None
  | Fin q =>
      let n := trunc q in
      if (n <? 0)%Z then None else Some (repeat_string s (Z.to_nat n))
  end.

(** ** calculateStats *)

(** The object returned by [calculateStats]; [std] and [median] exist only
    on the object returned for the empty array.  The [mean] computed below
    is the sum and the quotient of line 182 without rounding; what binary64
    makes of them is [mean64]. *)
Record Stats : Type := mkStats {
  mean : num;
  std : value;
  median : value;
  percentile90 : value
}.

Definition calculateStats (arr : list num) : Stats :=
  if (length_ arr =? 0)%Z then
    mkStats (Fin 0) (Some (Fin 0)) (Some (Fin 0)) (Some (Fin 0))
  else
    let mean := (reduce add (Fin 0) arr / ofZ (length_ arr))%num in
    let sorted := sort sub arr in
    let percentile90 :=
      index sorted (Math_floor (ofZ (length_ sorted) * Fin 0.9)%num) in
    mkStats mean None None percentile90.

(** *** The mean in binary64 *)

(** The double of a non-negative integer below 2^53, such as an array
    length or the initial value 0 of [reduce]. *)
Definition ofZ64 (z : Z) : PrimFloat.float :=
  PrimFloat.of_uint63 (Uint63.of_Z z).

(** The double that the literal n/d denotes when n and d are small
    integers: the correctly rounded quotient, so [dec64 1 10] is the double
    written 0.1. *)
Definition dec64 (n d : Z) : PrimFloat.float :=
  PrimFloat.div (ofZ64 n) (ofZ64 d).

(** The [mean] of [calculateStats] on doubles:
    [arr.reduce((a, b) => a + b, 0) / arr.length], after the test for the
    empty array; every addition and the division round to nearest. *)
Definition mean64 (arr : list PrimFloat.float) : PrimFloat.float :=
  if (length_ arr =? 0)%Z then ofZ64 0
  else PrimFloat.div (reduce PrimFloat.add (ofZ64 0) arr)
                     (ofZ64 (length_ arr)).

(** ** The feature series *)

(** The seventeen arrays declared at the top of
    [measureAudioCharacteristics]. *)
Inductive series : Type :=
| hfcValues | spectralCentroids | spectralComplexities | dissonances
| pitchSaliences | inharmonicities | spectralEntropies | spectralRolloffs
| loudnesses | zeroCrossingRates | dynamicComplexities | spectralFluxes
| lowFreqEnergies | highFreqEnergies | spectralFlatnesses
| spectralPeakCounts | frameSilences.

Definition series_eq_dec (a b : series) : {a = b} + {a <> b}.
Proof. decide equality. Defined.

(** The contents of the arrays at one point of the run. *)
Definition Store : Type := series -> list num.

Definition emptyStore : Store := fun _ => [].

(** [arr.push(v)]. *)
Definition push_store (f : series) (v : num) (s : Store) : Store :=
  fun g => if series_eq_dec g f then s g ++ [v] else s g.

(** ** Computations that may throw *)

Inductive result (A : Type) : Type :=
| Ok (a : A)
| Throw
| OutOfFuel.
Arguments Ok {A} a.
Arguments Throw {A}.
Arguments OutOfFuel {A}.

(** A statement sequence over a mutable state [S]: it transforms the state
    and either completes with a value or throws; what was written before a
    throw stays written. *)
Definition Exc (S A : Type) : Type := S -> S * result A.

Definition ret {S A} (a : A) : Exc S A := fun s => (s, Ok a).

Definition bind {S A B} (c : Exc S A) (k : A -> Exc S B) : Exc S B :=
  fun s =>
    match c s with
    | (s', Ok a) => k a s'
    | (s', Throw) => (s', Throw)
    | (s', OutOfFuel) => (s', OutOfFuel)
    end.

Notation "x <- c ;; k" := (bind c (fun x => k))
  (at level 61, c at next level, right associativity).
Notation "c ;;; k" := (bind c (fun _ => k))
  (at level 61, right associativity).

(** A call into essentia: [None] is a thrown exception. *)
Definition call {S A} (o : option A) : Exc S A :=
  fun s => (s, match o with Some a => Ok a | None => Throw end).

Definition push (f : series) (v : num) : Exc Store unit :=
  fun s => (push_store f v s, Ok tt).

(** [try { c } catch (e) {}]. *)
Definition try {S} (c : Exc S unit) : Exc S unit :=
  fun s =>
    match c s with
    | (s', Throw) => (s', Ok tt)
    | r => r
    end.

(** [for (let i = i0; i < bound; i += step) body(i)]. *)
Fixpoint forLoop {S} (fuel : nat) (bound step : Z) (body : Z -> Exc S unit)
  (i : Z) : Exc S unit :=
  if (i <? bound)%Z then
    match fuel with
    | O => fun s => (s, OutOfFuel)
    | S n => body i ;;; forLoop n bound step body (i + step)%Z
    end
  else ret tt.

(** The loop counter values seen by the body of the frame loop over a
    buffer of length [len]: the loop of line 44 run with a body that only
    records [i]. *)
Definition record (i : Z) : Exc (list Z) unit :=
  fun log => (log ++ [i], Ok tt).

Definition frameSize : Z := 4096.
Definition hopSize : Z := 2048.

Definition frameOffsets (len : Z) : list Z :=
  fst (forLoop (Z.to_nat len) (len - frameSize) hopSize record 0 []).

(** ** essentia.js *)

(** The optional arguments of [SpectralPeaks]. *)
Record PeakArgs : Type := mkPeakArgs {
  maxPeaks : num;
  maxFreq : num;
  minFreq : num;
  magnitudeThreshold : num;
  orderBy : string
}.

Record Essentia : Type := mkEssentia {
  Vec : Type;
  arrayToVector : list num -> option Vec;
  Array_from : Vec -> list num;
  size : Vec -> option num;
  Windowing : Vec -> bool -> Z -> string -> option Vec;
  Spectrum : Vec -> option Vec;
  HFC : Vec -> option num;
  Centroid : Vec -> option num;
  SpectralComplexity : Vec -> option num;
  SpectralPeaks : Vec -> option PeakArgs -> option (Vec * Vec);
  Dissonance : Vec -> Vec -> option num;
  PitchSalience : Vec -> option num;
  Inharmonicity : Vec -> Vec -> option num;
  Entropy : Vec -> option num;
  RollOff : Vec -> num -> option num;
  Loudness : Vec -> option num;
  ZeroCrossingRate : Vec -> option num;
  Flux : Vec -> Vec -> option num;
  Flatness : Vec -> option num;
  Energy : Vec -> option num;
  DynamicComplexity : Vec -> option num
}.

Section Collector.

Variable E : Essentia.
Variable audio : list num.
Variable sampleRate : num.

(** The pair of values pushed by the band-energy block for a spectrum
    array: the mean square below and from the split point. *)
Definition sumSquares (l : list num) : num :=
  reduce (fun a b => a + b * b)%num (Fin 0) l.

Definition splitPoint (spectrumArray : list num) : num :=
  Math_floor (ofZ (length_ spectrumArray) * Fin 0.1)%num.

Definition lowEnergy (spectrumArray : list num) : num :=
  let lowFreqs := slice spectrumArray (Fin 0) (splitPoint spectrumArray) in
  (sumSquares lowFreqs / ofZ (length_ lowFreqs))%num.

Definition highEnergy (spectrumArray : list num) : num :=
  let highFreqs := slice_from spectrumArray (splitPoint spectrumArray) in
  (sumSquares highFreqs / ofZ (length_ highFreqs))%num.

(** Windowing and spectrum of the frame that starts at offset [i]. *)
Definition frameVectorAt (i : Z) : option (Vec E) :=
  arrayToVector E (slice audio (ofZ i) (ofZ (i + frameSize))).

Definition windowSpectrum (v : Vec E) : option (Vec E) :=
  match Windowing E v true frameSize "blackmanharris62" with
  | Some w => Spectrum E w
  | None => None
  end.

(** The body of the frame loop, lines 45 to 170. *)
Definition frameBody (i : Z) : Exc Store unit :=
  let frame := slice audio (ofZ i) (ofZ (i + frameSize)) in
  frameVector <- call (arrayToVector E frame) ;;
  windowed <- call (Windowing E frameVector true frameSize "blackmanharris62") ;;
  spectrum <- call (Spectrum E windowed) ;;
  try (hfc <- call (HFC E spectrum) ;;
       push hfcValues hfc) ;;;
  try (centroid <- call (Centroid E spectrum) ;;
       push spectralCentroids (centroid * sampleRate / Fin 2)%num) ;;;
  try (complexity <- call (SpectralComplexity E spectrum) ;;
       push spectralComplexities complexity) ;;;
  try (peaks <- call (SpectralPeaks E spectrum None) ;;
       dissonance <- call (Dissonance E (fst peaks) (snd peaks)) ;;
       push dissonances dissonance) ;;;
  try (salience <- call (PitchSalience E spectrum) ;;
       push pitchSaliences salience) ;;;
  try (peaks <- call (SpectralPeaks E spectrum None) ;;
       inharmonicity <- call (Inharmonicity E (fst peaks) (snd peaks)) ;;
       push inharmonicities inharmonicity) ;;;
  try (entropy <- call (Entropy E spectrum) ;;
       push spectralEntropies entropy) ;;;
  try (rolloff <- call (RollOff E spectrum (Fin 0.85)) ;;
       push spectralRolloffs (rolloff * sampleRate / Fin 2)%num) ;;;
  try (loudness <- call (Loudness E frameVector) ;;
       push loudnesses loudness) ;;;
  try (zcr <- call (ZeroCrossingRate E frameVector) ;;
       push zeroCrossingRates zcr) ;;;
  (if (i >? 0)%Z then
     try (let prevFrame :=
            slice audio (ofZ (i - hopSize)) (ofZ (i - hopSize + frameSize)) in
          prevVector <- call (arrayToVector E prevFrame) ;;
          prevWindowed <-
            call (Windowing E prevVector true frameSize "blackmanharris62") ;;
          prevSpectrum <- call (Spectrum E prevWindowed) ;;
          flux <- call (Flux E prevSpectrum spectrum) ;;
          push spectralFluxes flux)
   else ret tt) ;;;
  try (let spectrumArray := Array_from E spectrum in
       let splitPoint := Math_floor (ofZ (length_ spectrumArray) * Fin 0.1)%num in
       let lowFreqs := slice spectrumArray (Fin 0) splitPoint in
       let highFreqs := slice_from spectrumArray splitPoint in
       let lowEnergy :=
         (reduce (fun a b => a + b * b) (Fin 0) lowFreqs
            / ofZ (length_ lowFreqs))%num in
       let highEnergy :=
         (reduce (fun a b => a + b * b) (Fin 0) highFreqs
            / ofZ (length_ highFreqs))%num in
       push lowFreqEnergies lowEnergy ;;;
       push highFreqEnergies highEnergy) ;;;
  try (flatness <- call (Flatness E spectrum) ;;
       push spectralFlatnesses flatness) ;;;
  try (peaks <-
         call (SpectralPeaks E spectrum
                 (Some (mkPeakArgs (Fin 50) (sampleRate / Fin 2)%num (Fin 20)
                          (Fin 0.000001) "magnitude"))) ;;
       n <- call (size E (fst peaks)) ;;
       push spectralPeakCounts n) ;;;
  try (energy <- call (Energy E frameVector) ;;
       push frameSilences (if ltb energy (Fin 0.001) then Fin 1 else Fin 0)).

(** Lines 44 to 177: the frame loop, then the dynamic complexity of the
    whole buffer. *)
Definition collect (fuel : nat) : Exc Store unit :=
  forLoop fuel (length_ audio - frameSize) hopSize frameBody 0 ;;;
  try (audioVector <- call (arrayToVector E audio) ;;
       dc <- call (DynamicComplexity E audioVector) ;;
       push dynamicComplexities dc).

End Collector.

(** ** Scores *)

Record Scores : Type := mkScores {
  aggressivenessScore : num;
  tonalityScore : num;
  softnessScore : num;
  highLowBalance : num;
  densityScore : num
}.

(** Lines 203 to 206. *)
Definition silenceRatioOf (frameSilences : list num) : num :=
  if (length_ frameSilences >? 0)%Z
  then (reduce add (Fin 0) frameSilences / ofZ (length_ frameSilences))%num
  else Fin 0.

(** Lines 213 to 216. *)
Definition normalizedDynamicOf (dynamicComplexities : list num) : num :=
  if (length_ dynamicComplexities >? 0)%Z
  then Math_min (Fin 100)
         (toNumber (index dynamicComplexities (Fin 0)) * Fin 10)%num
  else Fin 50.

(** Lines 218 to 224. *)
Definition aggressivenessOf
  (hfcMean centroidMean complexityMean dissonanceMean fluxMean : num)
  (normalizedDynamic : num) : num :=
  let normalizedHFC := Math_min (Fin 100) (hfcMean / Fin 10000 * Fin 100)%num in
  let normalizedCentroid :=
    Math_min (Fin 100) (centroidMean / Fin 10000 * Fin 100)%num in
  let normalizedComplexity :=
    Math_min (Fin 100) (complexityMean / Fin 20 * Fin 100)%num in
  let normalizedDissonance := Math_min (Fin 100) (dissonanceMean * Fin 200)%num in
  let normalizedFlux := Math_min (Fin 100) (fluxMean * Fin 1000)%num in
  (normalizedHFC * Fin 0.25 + normalizedCentroid * Fin 0.2
   + normalizedComplexity * Fin 0.15 + normalizedDissonance * Fin 0.15
   + normalizedFlux * Fin 0.15 + normalizedDynamic * Fin 0.1)%num.

(** Lines 226 to 237. *)
Definition tonalityOf (salienceMean inharmonicityMean entropyMean : num) : num :=
  let normalizedSalience := Math_min (Fin 100) (salienceMean * Fin 100)%num in
  let normalizedHarmonicity :=
    Math_max (Fin 0) (Fin 100 - inharmonicityMean * Fin 1000)%num in
  let normalizedTonalEntropy :=
    Math_max (Fin 0) (Fin 100 - entropyMean * Fin 12)%num in
  (normalizedSalience * Fin 0.35 + normalizedHarmonicity * Fin 0.35
   + normalizedTonalEntropy * Fin 0.2 + Fin 0.1)%num.

(** Lines 239 to 254. *)
Definition softnessOf (rolloffMean loudnessMean zcrMean : num)
  (loudnessP90 : value) : num :=
  let normalizedRolloff := Math_max (Fin 0) (Fin 100 - rolloffMean / Fin 100)%num in
  let normalizedQuietness :=
    Math_max (Fin 0)
      (Fin 100 - Math_min (Fin 100) (loudnessMean / Fin 20))%num in
  let normalizedSmoothness := Math_max (Fin 0) (Fin 100 - zcrMean * Fin 200)%num in
  let peakSoftness :=
    Math_max (Fin 0)
      (Fin 100 - Math_min (Fin 100) (toNumber loudnessP90 / Fin 30))%num in
  (normalizedRolloff * Fin 0.25 + normalizedQuietness * Fin 0.35
   + normalizedSmoothness * Fin 0.2 + peakSoftness * Fin 0.2)%num.

(** Lines 257 to 264. *)
Definition highLowBalanceOf (lowEnergyMean highEnergyMean : num) : num :=
  let totalEnergy := (lowEnergyMean + highEnergyMean)%num in
  if gtb totalEnergy (Fin 0) then
    let highRatio := (highEnergyMean / totalEnergy)%num in
    Math_min (Fin 100) (Math_max (Fin 0) (highRatio * Fin 100)%num)
  else Fin 50.

(** Lines 267 to 279. *)
Definition densityOf (flatnessMean peakCountMean silenceRatio complexityMean : num)
  : num :=
  let normalizedFlatness := Math_max (Fin 0) (Fin 100 - flatnessMean * Fin 100)%num in
  let normalizedPeakCount :=
    Math_min (Fin 100) (peakCountMean / Fin 15 * Fin 100)%num in
  let normalizedActivity := Math_max (Fin 0) (Fin 100 - silenceRatio * Fin 100)%num in
  let normalizedComplexityDensity :=
    Math_min (Fin 100) (complexityMean / Fin 10 * Fin 100)%num in
  (normalizedPeakCount * Fin 0.35 + normalizedActivity * Fin 0.25
   + normalizedComplexityDensity * Fin 0.25 + normalizedFlatness * Fin 0.15)%num.

(** Lines 188 to 279: the scores of the collected arrays. *)
Definition computeScores (s : Store) : Scores :=
  let hfcStats := calculateStats (s hfcValues) in
  let centroidStats := calculateStats (s spectralCentroids) in
  let complexityStats := calculateStats (s spectralComplexities) in
  let dissonanceStats := calculateStats (s dissonances) in
  let salienceStats := calculateStats (s pitchSaliences) in
  let inharmonicityStats := calculateStats (s inharmonicities) in
  let entropyStats := calculateStats (s spectralEntropies) in
  let rolloffStats := calculateStats (s spectralRolloffs) in
  let loudnessStats := calculateStats (s loudnesses) in
  let zcrStats := calculateStats (s zeroCrossingRates) in
  let fluxStats := calculateStats (s spectralFluxes) in
  let lowEnergyStats := calculateStats (s lowFreqEnergies) in
  let highEnergyStats := calculateStats (s highFreqEnergies) in
  let flatnessStats := calculateStats (s spectralFlatnesses) in
  let peakCountStats := calculateStats (s spectralPeakCounts) in
  let silenceRatio := silenceRatioOf (s frameSilences) in
  mkScores
    (aggressivenessOf (mean hfcStats) (mean centroidStats)
       (mean complexityStats) (mean dissonanceStats) (mean fluxStats)
       (normalizedDynamicOf (s dynamicComplexities)))
    (tonalityOf (mean salienceStats) (mean inharmonicityStats)
       (mean entropyStats))
    (softnessOf (mean rolloffStats) (mean loudnessStats) (mean zcrStats)
       (percentile90 loudnessStats))
    (highLowBalanceOf (mean lowEnergyStats) (mean highEnergyStats))
    (densityOf (mean flatnessStats) (mean peakCountStats) silenceRatio
       (mean complexityStats)).

(** ** createBar and the report *)

(** Lines 281 to 285; [None] is the RangeError of [repeat]. *)
Definition createBar (score : num) : option string :=
  let filled := Math_round (score / Fin 5)%num in
  let empty := (Fin 20 - filled)%num in
  match String_repeat "#" filled with
  | None => None
  | Some hashes =>
      match String_repeat "-" empty with
      | None => None
      | Some dashes => Some (append hashes dashes)
      end
  end.

(** A printed line: its label, its bar and the score whose [toFixed(0)]
    follows the bar (the formatting of that number is not modelled). *)
Definition Line : Type := (string * string * num)%type.

(** Lines 287 to 301: the lines printed, in order, until a bar throws. *)
Fixpoint logLines (l : list (string * num)) : list Line * result unit :=
  match l with
  | [] => ([], Ok tt)
  | (label, score) :: t =>
      match createBar score with
      | None => ([], Throw)
      | Some bar =>
          let (out, r) := logLines t in ((label, bar, score) :: out, r)
      end
  end.

Definition labelled (sc : Scores) : list (string * num) :=
  [ ("Aggressiveness: "%string, aggressivenessScore sc);
    ("Tonality:       "%string, tonalityScore sc);
    ("Softness:       "%string, softnessScore sc);
    ("High-Low Bal:   "%string, highLowBalance sc);
    ("Density:        "%string, densityScore sc) ].

(** The whole of [measureAudioCharacteristics] after [loadWav]: the lines
    printed and whether the function completed or threw. *)
Definition measureAudioCharacteristics (E : Essentia) (audio : list num)
  (sampleRate : num) : list Line * result unit :=
  match collect E audio sampleRate (Z.to_nat (length_ audio)) emptyStore with
  | (s, Ok _) => logLines (labelled (computeScores s))
  | (_, Throw) => ([], Throw)
  | (_, OutOfFuel) => ([], OutOfFuel)
  end.

(** A toy essentia over plain arrays, used to run the model. *)
Definition toyEssentia : Essentia :=
  {| Vec := list num;
     arrayToVector := fun a => Some a;
     Array_from := fun v => v;
     size := fun v => Some (ofZ (length_ v));
     Windowing := fun v _ _ _ => Some v;
     Spectrum := fun v => Some (firstn 20 v);
     HFC := fun v => Some (Fin 5000);
     Centroid := fun v => Some (Fin 0.1);
     SpectralComplexity := fun v => Some (Fin 4);
     SpectralPeaks := fun v _ => Some (firstn 3 v, firstn 3 v);
     Dissonance := fun _ _ => Some (Fin 0.25);
     PitchSalience := fun v => None;
     Inharmonicity := fun _ _ => Some (Fin 0.05);
     Entropy := fun v => Some (Fin 5);
     RollOff := fun v _ => Some (Fin 0.2);
     Loudness := fun v => Some (Fin 100);
     ZeroCrossingRate := fun v => Some (Fin 0.1);
     Flux := fun _ _ => Some (Fin 0.05);
     Flatness := fun v => Some (Fin 0.5);
     Energy := fun v => Some (reduce (fun a b => a + b * b)%num (Fin 0) v);
     DynamicComplexity := fun v => Some (Fin 3) |}.

Definition toyAudio (n : Z) : list num := repeat (Fin 1) (Z.to_nat n).

(** ** Notions used in the statements *)

(** Minimum and maximum of two rationals, as [Math_min] and [Math_max]
    compute them. *)
Definition qmin (a b : Q) : Q :=
  if match b ?= a with Lt => true | _ => false end then b else a.

Definition qmax (a b : Q) : Q :=
  if match a ?= b with Lt => true | _ => false end then b else a.

(** The tonality formula in the words of the specification, over the
    rationals. *)
Definition spec_tonality (salienceMean inharmonicityMean entropyMean : Q) : Q :=
  0.35 * Qmin 100 (salienceMean * 100)
  + 0.35 * Qmax 0 (100 - inharmonicityMean * 1000)
  + 0.20 * Qmax 0 (100 - entropyMean * 12)
  + 0.1.

(** A store in which every array holds two zeros. *)
Definition zeroStore : Store := fun _ => [Fin 0; Fin 0].

Definition Qtotal (l : list Q) : Q := fold_right Qplus 0 l.

(** The arithmetic mean of the entries of a non-empty series. *)
Definition arithmeticMean (l : list num) : Q :=
  Qtotal (map val l) / inject_Z (length_ l).

(** The [mean] of a summary in the words of the specification: 0 for the
    empty series, the arithmetic mean otherwise. *)
Definition summaryMean (l : list num) : Q :=
  match l with [] => 0 | _ => arithmeticMean l end.

(** The rational that [calculateStats] computes as [mean]. *)
Definition meanQ (l : list num) : Q :=
  match l with
  | [] => 0
  | _ => fold_left Qplus (map val l) 0 / inject_Z (length_ l)
  end.

(** [a == b] of JavaScript on numbers. *)
Definition js_eqb (x y : num) : bool :=
  match x, y with
  | Fin a, Fin b => Qeq_bool a b
  | PInf, PInf | NInf, NInf => true
  | _, _ => false
  end.

(** The balance in the words of the specification: 50 when the two means
    add up to 0, the clamped percentage otherwise. *)
Definition spec_highLowBalance (lowEnergyMean highEnergyMean : num) : num :=
  if js_eqb (lowEnergyMean + highEnergyMean)%num (Fin 0) then Fin 50
  else Math_min (Fin 100)
         (Math_max (Fin 0)
            (highEnergyMean / (lowEnergyMean + highEnergyMean) * Fin 100)%num).

(** [Math.round(score / 5)] for a finite score. *)
Definition filledOf (q : Q) : Z := Qfloor (q / 5 + (1 # 2)).

(** The counter values for which a loop runs its body, and whether the
    fuel ran out before the loop condition became false. *)
Fixpoint offsetsFrom (fuel : nat) (bound step i : Z) : list Z :=
  if (i <? bound)%Z then
    match fuel with
    | O => []
    | S n => i :: offsetsFrom n bound step (i + step)
    end
  else [].

Fixpoint exhausted (fuel : nat) (bound step i : Z) : bool :=
  if (i <? bound)%Z then
    match fuel with
    | O => true
    | S n => exhausted n bound step (i + step)
    end
  else false.

(** Running a body at each offset of a list, in order, until it throws. *)
Fixpoint runAll {S} (body : Z -> Exc S unit) (l : list Z) : Exc S unit :=
  match l with
  | [] => ret tt
  | i :: t => body i ;;; runAll body t
  end.

Definition finish {S} (out_of_fuel : bool) : Exc S unit :=
  fun s => (s, if out_of_fuel then OutOfFuel else Ok tt).

(** Ascending order of a series of finite numbers. *)
Definition num_le (x y : num) : Prop := val x <= val y.

Definition ascending (l : list num) : Prop := Sorted num_le l.

(** The smallest and the largest entry of a series. *)
Definition seriesMin (l : list num) : Q :=
  match l with
  | [] => 0
  | x :: t => fold_right (fun y a => Qmin (val y) a) (val x) t
  end.

Definition seriesMax (l : list num) : Q :=
  match l with
  | [] => 0
  | x :: t => fold_right (fun y a => Qmax (val y) a) (val x) t
  end.

Definition option_list {A} (o : option A) : list A :=
  match o with Some a => [a] | None => [] end.

(** Pushing the result of a computation that may have thrown. *)
Definition pushOpt (f : series) (o : option num) (s : Store) : Store :=
  match o with Some v => push_store f v s | None => s end.

Section CollectorModel.

Variable E : Essentia.
Variable audio : list num.
Variable sampleRate : num.

(** The frame vector and the spectrum of the frame at offset [i], when
    [arrayToVector], [Windowing] and [Spectrum] all return. *)
Definition prepare (i : Z) : option (Vec E * Vec E) :=
  match frameVectorAt E audio i with
  | Some v =>
      match windowSpectrum E v with
      | Some sp => Some (v, sp)
      | None => None
      end
  | None => None
  end.

Definition spectrumAt (i : Z) : option (Vec E) := option_map snd (prepare i).

(** The flux of the frame at offset [i] against the frame one hop before. *)
Definition fluxAt (i : Z) (spectrum : Vec E) : option num :=
  match spectrumAt (i - hopSize) with
  | Some prevSpectrum => Flux E prevSpectrum spectrum
  | None => None
  end.

(** What each try block of the frame at offset [i] computes for its
    series: the value it pushes, or [None] when the block throws or is not
    entered. *)
Definition attempt (i : Z) (frameVector spectrum : Vec E) (f : series)
  : option num :=
  match f with
  | hfcValues => HFC E spectrum
  | spectralCentroids =>
      option_map (fun c => c * sampleRate / Fin 2)%num (Centroid E spectrum)
  | spectralComplexities => SpectralComplexity E spectrum
  | dissonances =>
      match SpectralPeaks E spectrum None with
      | Some peaks => Dissonance E (fst peaks) (snd peaks)
      | None => None
      end
  | pitchSaliences => PitchSalience E spectrum
  | inharmonicities =>
      match SpectralPeaks E spectrum None with
      | Some peaks => Inharmonicity E (fst peaks) (snd peaks)
      | None => None
      end
  | spectralEntropies => Entropy E spectrum
  | spectralRolloffs =>
      option_map (fun r => r * sampleRate / Fin 2)%num
        (RollOff E spectrum (Fin 0.85))
  | loudnesses => Loudness E frameVector
  | zeroCrossingRates => ZeroCrossingRate E frameVector
  | dynamicComplexities => None
  | spectralFluxes => if (i >? 0)%Z then fluxAt i spectrum else None
  | lowFreqEnergies => Some (lowEnergy (Array_from E spectrum))
  | highFreqEnergies => Some (highEnergy (Array_from E spectrum))
  | spectralFlatnesses => Flatness E spectrum
  | spectralPeakCounts =>
      match
        SpectralPeaks E spectrum
          (Some (mkPeakArgs (Fin 50) (sampleRate / Fin 2)%num (Fin 20)
                   (Fin 0.000001) "magnitude"))
      with
      | Some peaks => size E (fst peaks)
      | None => None
      end
  | frameSilences =>
      option_map (fun e => if ltb e (Fin 0.001) then Fin 1 else Fin 0)
        (Energy E frameVector)
  end.

(** The arrays after the sixteen blocks of one frame. *)
Definition afterFrame (i : Z) (fv sp : Vec E) (s : Store) : Store :=
  let a := attempt i fv sp in
  pushOpt frameSilences (a frameSilences)
    (pushOpt spectralPeakCounts (a spectralPeakCounts)
    (pushOpt spectralFlatnesses (a spectralFlatnesses)
    (pushOpt highFreqEnergies (a highFreqEnergies)
    (pushOpt lowFreqEnergies (a lowFreqEnergies)
    (pushOpt spectralFluxes (a spectralFluxes)
    (pushOpt zeroCrossingRates (a zeroCrossingRates)
    (pushOpt loudnesses (a loudnesses)
    (pushOpt spectralRolloffs (a spectralRolloffs)
    (pushOpt spectralEntropies (a spectralEntropies)
    (pushOpt inharmonicities (a inharmonicities)
    (pushOpt pitchSaliences (a pitchSaliences)
    (pushOpt dissonances (a dissonances)
    (pushOpt spectralComplexities (a spectralComplexities)
    (pushOpt spectralCentroids (a spectralCentroids)
    (pushOpt hfcValues (a hfcValues) s))))))))))))))).

(** The values one frame adds to a series, and the frames of a list that
    are reached before the first one whose preparation throws. *)
Definition collected (f : series) (i : Z) : list num :=
  match prepare i with
  | Some (fv, sp) => option_list (attempt i fv sp f)
  | None => []
  end.

Definition prepared (i : Z) : bool :=
  match prepare i with Some _ => true | None => false end.

Fixpoint processed (l : list Z) : list Z :=
  match l with
  | [] => []
  | i :: t => if prepared i then i :: processed t else []
  end.

End CollectorModel.

(** The flux values of the frame at offset [i]: none at the first offset;
    otherwise the flux between the spectrum of the frame at [i - hopSize],
    computed again from the samples, and the spectrum of the frame at [i],
    unless one of these computations throws. *)
Definition fluxValues (E : Essentia) (audio : list num) (i : Z) : list num :=
  if (i >? 0)%Z then
    match spectrumAt E audio (i - hopSize), spectrumAt E audio i with
    | Some prevSpectrum, Some spectrum =>
        option_list (Flux E prevSpectrum spectrum)
    | _, _ => []
    end
  else [].

(** The mean of the squares of a non-empty series of finite numbers. *)
Definition meanSquare (l : list num) : Q :=
  Qtotal (map (fun x => val x * val x) l) / inject_Z (length_ l).

(** An essentia whose spectrum has five bins only. *)
Definition fiveBinEssentia : Essentia :=
  {| Vec := list num;
     arrayToVector := fun a => Some a;
     Array_from := fun v => v;
     size := fun v => Some (ofZ (length_ v));
     Windowing := fun v _ _ _ => Some v;
     Spectrum := fun v => Some (firstn 5 v);
     HFC := fun v => None;
     Centroid := fun v => None;
     SpectralComplexity := fun v => None;
     SpectralPeaks := fun v _ => None;
     Dissonance := fun _ _ => None;
     PitchSalience := fun v => None;
     Inharmonicity := fun _ _ => None;
     Entropy := fun v => None;
     RollOff := fun v _ => None;
     Loudness := fun v => None;
     ZeroCrossingRate := fun v => None;
     Flux := fun _ _ => None;
     Flatness := fun v => None;
     Energy := fun v => None;
     DynamicComplexity := fun v => None |}.

(** A finite, non-negative number; a finite number between 0 and 100. *)
Definition nonneg (x : num) : Prop :=
  match x with Fin q => 0 <= q | _ => False end.

Definition in_0_100 (x : num) : Prop :=
  match x with Fin q => 0 <= q <= 100 | _ => False end.

(** Series within the normalization scales, with a failed feature. *)
Definition sampleStore : Store :=
  fun f =>
    match f with
    | hfcValues => [Fin 5000; Fin 10000]
    | spectralCentroids => [Fin 2205; Fin 4410]
    | pitchSaliences => []
    | loudnesses => [Fin 100; Fin 2000; Fin 40]
    | frameSilences => [Fin 1; Fin 0; Fin 0]
    | lowFreqEnergies => [Fin 0.5; Fin 0.25]
    | highFreqEnergies => [Fin 0.125; Fin 0]
    | _ => [Fin 0.05; Fin 0.1]
    end.

(** ** Notions used in the further properties *)

(** The labels of the five printed lines, in the order of lines 287 to
    301. *)
Definition labels : list string :=
  [ "Aggressiveness: "; "Tonality:       "; "Softness:       ";
    "High-Low Bal:   "; "Density:        " ]%string.

(** A computation that throws, or returns a finite non-negative number. *)
Definition nonnegOpt (o : option num) : Prop :=
  match o with Some x => nonneg x | None => True end.

(** What the block of lines 173 to 177 pushes: the dynamic complexity of
    the whole buffer, unless [arrayToVector] or [DynamicComplexity]
    throws. *)
Definition dynamicComplexityOf (E : Essentia) (audio : list num) : option num :=
  match arrayToVector E audio with
  | Some audioVector => DynamicComplexity E audioVector
  | None => None
  end.

(** A flag pushed to [frameSilences]. *)
Definition isFlag (x : num) : Prop := x = Fin 0 \/ x = Fin 1.

(** A printed bar: twenty characters, or empty for a NaN score. *)
Definition barShape (l : Line) : Prop :=
  String.length (snd (fst l)) = 20%nat \/
  (snd (fst l) = EmptyString /\ snd l = NaN).

(** An essentia whose [Windowing] throws from the second frame on (the
    frames of [toyAudio] are told apart by their first sample). *)
Definition brokenEssentia : Essentia :=
  {| Vec := list num;
     arrayToVector := fun a => Some a;
     Array_from := fun v => v;
     size := fun v => Some (ofZ (length_ v));
     Windowing := fun v _ _ _ =>
       match v with Fin 7 :: _ => Some v | _ => None end;
     Spectrum := fun v => Some (firstn 20 v);
     HFC := fun v => Some (Fin 5000);
     Centroid := fun v => Some (Fin 0.1);
     SpectralComplexity := fun v => Some (Fin 4);
     SpectralPeaks := fun v _ => Some (firstn 3 v, firstn 3 v);
     Dissonance := fun _ _ => Some (Fin 0.25);
     PitchSalience := fun v => None;
     Inharmonicity := fun _ _ => Some (Fin 0.05);
     Entropy := fun v => Some (Fin 5);
     RollOff := fun v _ => Some (Fin 0.2);
     Loudness := fun v => Some (Fin 100);
     ZeroCrossingRate := fun v => Some (Fin 0.1);
     Flux := fun _ _ => Some (Fin 0.05);
     Flatness := fun v => Some (Fin 0.5);
     Energy := fun v => Some (Fin 0);
     DynamicComplexity := fun v => Some (Fin 3) |}.

(** The number of entries of a series strictly below a value, and the
    number of entries at or below it. *)
Definition countLess (v : Q) (l : list num) : nat :=
  List.length (filter (fun y => negb (Qle_bool v (val y))) l).

Definition countAtMost (v : Q) (l : list num) : nat :=
  List.length (filter (fun y => Qle_bool (val y) v) l).

(** The index read by [calculateStats] in the sorted copy of a series of
    [n] entries. *)
Definition rank90 (n : Z) : nat := Z.to_nat (n * 9 / 10).

(** ** The earlier version of the program

    The second listing of src/MAIN.cjs (lines 310 to 524) is the earlier
    version of the same program: twelve series, three scores, the same
    [calculateStats] and [createBar]. *)

Section CollectorV1.

Variable E : Essentia.
Variable audio : list num.
Variable sampleRate : num.

(** The body of the frame loop of the earlier version, lines 349 to 432. *)
Definition frameBodyV1 (i : Z) : Exc Store unit :=
  let frame := slice audio (ofZ i) (ofZ (i + frameSize)) in
  frameVector <- call (arrayToVector E frame) ;;
  windowed <- call (Windowing E frameVector true frameSize "blackmanharris62") ;;
  spectrum <- call (Spectrum E windowed) ;;
  try (hfc <- call (HFC E spectrum) ;;
       push hfcValues hfc) ;;;
  try (centroid <- call (Centroid E spectrum) ;;
       push spectralCentroids (centroid * sampleRate / Fin 2)%num) ;;;
  try (complexity <- call (SpectralComplexity E spectrum) ;;
       push spectralComplexities complexity) ;;;
  try (peaks <- call (SpectralPeaks E spectrum None) ;;
       dissonance <- call (Dissonance E (fst peaks) (snd peaks)) ;;
       push dissonances dissonance) ;;;
  try (salience <- call (PitchSalience E spectrum) ;;
       push pitchSaliences salience) ;;;
  try (peaks <- call (SpectralPeaks E spectrum None) ;;
       inharmonicity <- call (Inharmonicity E (fst peaks) (snd peaks)) ;;
       push inharmonicities inharmonicity) ;;;
  try (entropy <- call (Entropy E spectrum) ;;
       push spectralEntropies entropy) ;;;
  try (rolloff <- call (RollOff E spectrum (Fin 0.85)) ;;
       push spectralRolloffs (rolloff * sampleRate / Fin 2)%num) ;;;
  try (loudness <- call (Loudness E frameVector) ;;
       push loudnesses loudness) ;;;
  try (zcr <- call (ZeroCrossingRate E frameVector) ;;
       push zeroCrossingRates zcr) ;;;
  (if (i >? 0)%Z then
     try (let prevFrame :=
            slice audio (ofZ (i - hopSize)) (ofZ (i - hopSize + frameSize)) in
          prevVector <- call (arrayToVector E prevFrame) ;;
          prevWindowed <-
            call (Windowing E prevVector true frameSize "blackmanharris62") ;;
          prevSpectrum <- call (Spectrum E prevWindowed) ;;
          flux <- call (Flux E prevSpectrum spectrum) ;;
          push spectralFluxes flux)
   else ret tt).

(** Lines 348 to 439. *)
Definition collectV1 (fuel : nat) : Exc Store unit :=
  forLoop fuel (length_ audio - frameSize) hopSize frameBodyV1 0 ;;;
  try (audioVector <- call (arrayToVector E audio) ;;
       dc <- call (DynamicComplexity E audioVector) ;;
       push dynamicComplexities dc).

(** The arrays after the eleven blocks of one frame of the earlier
    version. *)
Definition afterFrameV1 (i : Z) (fv sp : Vec E) (s : Store) : Store :=
  let a := attempt E audio sampleRate i fv sp in
  pushOpt spectralFluxes (a spectralFluxes)
    (pushOpt zeroCrossingRates (a zeroCrossingRates)
    (pushOpt loudnesses (a loudnesses)
    (pushOpt spectralRolloffs (a spectralRolloffs)
    (pushOpt spectralEntropies (a spectralEntropies)
    (pushOpt inharmonicities (a inharmonicities)
    (pushOpt pitchSaliences (a pitchSaliences)
    (pushOpt dissonances (a dissonances)
    (pushOpt spectralComplexities (a spectralComplexities)
    (pushOpt spectralCentroids (a spectralCentroids)
    (pushOpt hfcValues (a hfcValues) s)))))))))).

End CollectorV1.

(** The three scores of the earlier version, lines 450 to 508. *)
Record ScoresV1 : Type := mkScoresV1 {
  aggressivenessScoreV1 : num;
  tonalityScoreV1 : num;
  softnessScoreV1 : num
}.

Definition computeScoresV1 (s : Store) : ScoresV1 :=
  let hfcStats := calculateStats (s hfcValues) in
  let centroidStats := calculateStats (s spectralCentroids) in
  let complexityStats := calculateStats (s spectralComplexities) in
  let dissonanceStats := calculateStats (s dissonances) in
  let salienceStats := calculateStats (s pitchSaliences) in
  let inharmonicityStats := calculateStats (s inharmonicities) in
  let entropyStats := calculateStats (s spectralEntropies) in
  let rolloffStats := calculateStats (s spectralRolloffs) in
  let loudnessStats := calculateStats (s loudnesses) in
  let zcrStats := calculateStats (s zeroCrossingRates) in
  let fluxStats := calculateStats (s spectralFluxes) in
  mkScoresV1
    (aggressivenessOf (mean hfcStats) (mean centroidStats)
       (mean complexityStats) (mean dissonanceStats) (mean fluxStats)
       (normalizedDynamicOf (s dynamicComplexities)))
    (tonalityOf (mean salienceStats) (mean inharmonicityStats)
       (mean entropyStats))
    (softnessOf (mean rolloffStats) (mean loudnessStats) (mean zcrStats)
       (percentile90 loudnessStats)).

Definition labelledV1 (sc : ScoresV1) : list (string * num) :=
  [ ("Aggressiveness: "%string, aggressivenessScoreV1 sc);
    ("Tonality:       "%string, tonalityScoreV1 sc);
    ("Softness:       "%string, softnessScoreV1 sc) ].

(** [measureAudioCharacteristics] of the earlier version, after [loadWav]. *)
Definition measureAudioCharacteristicsV1 (E : Essentia) (audio : list num)
  (sampleRate : num) : list Line * result unit :=
  match collectV1 E audio sampleRate (Z.to_nat (length_ audio)) emptyStore with
  | (s, Ok _) => logLines (labelledV1 (computeScoresV1 s))
  | (_, Throw) => ([], Throw)
  | (_, OutOfFuel) => ([], OutOfFuel)
  end.

(** The series that the earlier version already has. *)
Definition inV1 (f : series) : bool :=
  match f with
  | lowFreqEnergies | highFreqEnergies | spectralFlatnesses
  | spectralPeakCounts | frameSilences => false
  | _ => true
  end.

(** ** Loading the file and the script

    [fs.readFileSync], [WavDecoder.decode] and the construction of the
    [Essentia] object are external; each is a field of [Node] that returns
    [None] when it throws. *)

(** A Node.js [Buffer]: a view of [byteLength] bytes at [byteOffset] in an
    [ArrayBuffer]. *)
Record Buffer : Type := mkBuffer {
  buffer : list Byte.byte;
  byteOffset : Z;
  byteLength : Z
}.

(** The object returned by [WavDecoder.decode]. *)
Record Wav : Type := mkWav {
  channelData : list (list num);
  wavSampleRate : num
}.

Record Node : Type := mkNode {
  readFileSync : string -> option Buffer;
  decode : list Byte.byte -> option Wav;
  newEssentia : option Essentia
}.

(** Lines 5 to 17; the audio is [undefined] ([None]) when the file has no
    channel. *)
Definition loadWav (N : Node) (filepath : string)
  : option (option (list num) * num) :=
  match readFileSync N filepath with
  | None => None
  | Some b =>
      let arrayBuffer :=
        slice (buffer b) (ofZ (byteOffset b))
          (ofZ (byteOffset b + byteLength b)) in
      match decode N arrayBuffer with
      | None => None
      | Some wav => Some (nth_error (channelData wav) 0, wavSampleRate wav)
      end
  end.

(** Lines 19 to 302, [loadWav] included: reading the length of an
    undefined audio throws at line 44. *)
Definition measureFile (N : Node) (filepath : string)
  : list Line * result unit :=
  match loadWav N filepath with
  | None => ([], Throw)
  | Some (audio, sampleRate) =>
      match newEssentia N with
      | None => ([], Throw)
      | Some E =>
          match audio with
          | None => ([], Throw)
          | Some samples => measureAudioCharacteristics E samples sampleRate
          end
      end
  end.

(** Line 304: [process.argv[2] || "./song.wav"]. *)
Definition filepathOf (argv : list string) : string :=
  match nth_error argv 2 with
  | Some EmptyString | None => "./song.wav"
  | Some path => path
  end.

(** Lines 304 to 309: the lines printed on standard output and the exit
    status, 1 when the promise is rejected ([None] stands for a run that
    does not return). *)
Definition main (N : Node) (argv : list string) : list Line * option Z :=
  let (lines, r) := measureFile N (filepathOf argv) in
  (lines,
   match r with
   | Ok _ => Some 0%Z
   | Throw => Some 1%Z
   | OutOfFuel => None
   end).

(** A host whose only file is [./song.wav], holding a two-channel
    recording. *)
Definition toyNode : Node :=
  {| readFileSync := fun path =>
       if String.eqb path "./song.wav"
       then Some (mkBuffer [Byte.x00; Byte.x01; Byte.x02; Byte.x03] 1 2)
       else None;
     decode := fun bytes =>
       match bytes with
       | [Byte.x01; Byte.x02] =>
           Some (mkWav [toyAudio 10000; repeat NaN (Z.to_nat 10000)] (Fin 44100))
       | _ => None
       end;
     newEssentia := Some toyEssentia |}.

(** The number of flags of a silence series that are 1. *)
Definition countSilent (l : list num) : nat :=
  List.length (filter (fun x => Qeq_bool (val x) 1) l).

(** * Properties *)

(** ** Concrete runs *)

Example createBar_0 : createBar (Fin 0) = Some "--------------------"%string.
Proof. reflexivity. Qed.

Example createBar_100 : createBar (Fin 100) = Some "####################"%string.
Proof. reflexivity. Qed.

Example createBar_47 : createBar (Fin 47) = Some "#########-----------"%string.
Proof. reflexivity. Qed.

Example frameOffsets_10000 : frameOffsets 10000 = [0; 2048; 4096]%Z.
Proof. reflexivity. Qed.

Example calculateStats_ten :
  calculateStats (map ofZ [5; 3; 9; 1; 7; 2; 8; 4; 6; 0]%Z)
  = mkStats (Fin 4.5) None None (Some (Fin 9)).
Proof. reflexivity. Qed.

Example toy_run_bars :
  let (lines, r) :=
    measureAudioCharacteristics toyEssentia (toyAudio 10000) (Fin 44100) in
  r = Ok tt /\
  map (fun l : Line => snd (fst l)) lines =
    [ "########------------"; "#####---------------"; "#################---";
      "##########----------"; "##########----------" ]%string.
Proof. vm_compute. split; reflexivity. Qed.


(** ** Numbers *)

Lemma Math_min_Fin (a b : Q) : Math_min (Fin a) (Fin b) = Fin (qmin a b).
Proof. unfold Math_min, qmin, ltb. now destruct (b ?= a). Qed.

Lemma Math_max_Fin (a b : Q) : Math_max (Fin a) (Fin b) = Fin (qmax a b).
Proof. unfold Math_max, qmax, ltb. now destruct (a ?= b). Qed.

Lemma qmin_spec (a b : Q) : (b < a /\ qmin a b = b) \/ (a <= b /\ qmin a b = a).
Proof.
  unfold qmin. destruct (b ?= a) eqn:C.
  - right. split; [apply Qeq_alt in C; rewrite C; apply Qle_refl | reflexivity].
  - left. split; [now apply Qlt_alt | reflexivity].
  - right. split; [apply Qlt_le_weak; now apply Qgt_alt | reflexivity].
Qed.

Lemma qmax_spec (a b : Q) : (a < b /\ qmax a b = b) \/ (b <= a /\ qmax a b = a).
Proof.
  unfold qmax. destruct (a ?= b) eqn:C.
  - right. split; [apply Qeq_alt in C; rewrite C; apply Qle_refl | reflexivity].
  - left. split; [now apply Qlt_alt | reflexivity].
  - right. split; [apply Qlt_le_weak; now apply Qgt_alt | reflexivity].
Qed.

Lemma qmin_Qmin (a b : Q) : qmin a b == Qmin a b.
Proof.
  destruct (qmin_spec a b) as [[H ->]|[H ->]].
  - symmetry. apply Q.min_r. now apply Qlt_le_weak.
  - symmetry. now apply Q.min_l.
Qed.

Lemma qmax_Qmax (a b : Q) : qmax a b == Qmax a b.
Proof.
  destruct (qmax_spec a b) as [[H ->]|[H ->]].
  - symmetry. apply Q.max_r. now apply Qlt_le_weak.
  - symmetry. now apply Q.max_l.
Qed.

Lemma div_Fin (a b : Q) : ~ b == 0 -> (Fin a / Fin b)%num = Fin (a / b).
Proof.
  intros H. unfold div. destruct (Qeq_bool b 0) eqn:E; [|reflexivity].
  apply Qeq_bool_eq in E. contradiction.
Qed.

Lemma gtb_Fin_0 (a : Q) : gtb (Fin a) (Fin 0) = true <-> 0 < a.
Proof.
  unfold gtb, ltb. rewrite Qlt_alt. destruct (0 ?= a); split; congruence.
Qed.

Ltac split_minmax :=
  repeat match goal with
    | |- context [qmin ?a ?b] =>
        let H := fresh in let E := fresh in
        destruct (qmin_spec a b) as [[H E]|[H E]]; rewrite E in *; clear E
    | |- context [qmax ?a ?b] =>
        let H := fresh in let E := fresh in
        destruct (qmax_spec a b) as [[H E]|[H E]]; rewrite E in *; clear E
    end.

(** ** Tonality *)

(** C7, as stated, fails: on all-zero series, and on no series at all, the
    tonality score is 55.1 and not 70.1. *)
Lemma tonality_all_zero_not_70_1 :
  tonalityScore (computeScores zeroStore) =n= Fin 55.1 /\
  tonalityScore (computeScores emptyStore) =n= Fin 55.1 /\
  ~ tonalityScore (computeScores zeroStore) =n= Fin 70.1.
Proof.
  vm_compute. repeat split; discriminate.
Qed.

(** ** The mean computed by [calculateStats] *)

Lemma finite_Fin (x : num) : finite x -> x = Fin (val x).
Proof. destruct x; simpl; intros H; (reflexivity || contradiction). Qed.

Lemma reduce_add_finite (l : list num) (acc : Q) :
  Forall finite l ->
  reduce add (Fin acc) l = Fin (fold_left Qplus (map val l) acc).
Proof.
  unfold reduce. intros H. revert acc.
  induction H as [|x l Hx _ IH]; intros acc; simpl; [reflexivity|].
  rewrite (finite_Fin x Hx). simpl. apply IH.
Qed.

Lemma fold_left_Qplus (l : list Q) (acc : Q) :
  fold_left Qplus l acc == acc + Qtotal l.
Proof.
  revert acc. induction l as [|x l IH]; intros acc; simpl.
  - ring.
  - rewrite IH. ring.
Qed.

Lemma length_pos_nonempty {A} (l : list A) : l <> [] -> (0 < length_ l)%Z.
Proof. destruct l; [congruence|]. unfold length_. simpl. lia. Qed.

Lemma inject_Z_pos (z : Z) : (0 < z)%Z -> 0 < inject_Z z.
Proof. intros H. unfold Qlt. simpl. lia. Qed.

Lemma inject_Z_nonzero (z : Z) : (0 < z)%Z -> ~ inject_Z z == 0.
Proof. intros H E. apply inject_Z_pos in H. rewrite E in H. now apply Qlt_irrefl in H. Qed.

Lemma calculateStats_mean (l : list num) :
  Forall finite l -> mean (calculateStats l) = Fin (meanQ l).
Proof.
  intros H. destruct l as [|x l]; [reflexivity|].
  unfold calculateStats.
  assert (Hlen : (0 < length_ (x :: l))%Z) by (apply length_pos_nonempty; congruence).
  destruct (Z.eqb_spec (length_ (x :: l)) 0) as [E|_]; [lia|].
  cbn [mean]. rewrite reduce_add_finite by assumption.
  unfold ofZ. rewrite div_Fin by now apply inject_Z_nonzero.
  reflexivity.
Qed.

Lemma meanQ_summaryMean (l : list num) : meanQ l == summaryMean l.
Proof.
  destruct l as [|x l]; [reflexivity|].
  unfold meanQ, summaryMean, arithmeticMean.
  rewrite fold_left_Qplus. now rewrite Qplus_0_l.
Qed.

(** C7 (amended): on finite series the tonality score is
    0.35 min(100, salienceMean 100) + 0.35 max(0, 100 - inharmonicityMean 1000)
    + 0.20 max(0, 100 - entropyMean 12) + 0.1, with its fixed offset 0.1;
    all-zero means give 55.1. *)
Theorem tonality_formula (s : Store) :
  Forall finite (s pitchSaliences) ->
  Forall finite (s inharmonicities) ->
  Forall finite (s spectralEntropies) ->
  tonalityScore (computeScores s) =n=
    Fin (spec_tonality (summaryMean (s pitchSaliences))
           (summaryMean (s inharmonicities))
           (summaryMean (s spectralEntropies)))
  /\ spec_tonality 0 0 0 == 55.1.
Proof.
  intros H1 H2 H3. split; [|vm_compute; reflexivity].
  unfold computeScores. cbn [tonalityScore].
  rewrite !calculateStats_mean by assumption.
  unfold tonalityOf. cbn [mul sub add neg].
  rewrite Math_min_Fin, !Math_max_Fin. cbn [mul sub add neg num_eq].
  rewrite qmin_Qmin, !qmax_Qmax, !meanQ_summaryMean.
  unfold spec_tonality, Qminus. ring.
Qed.

Lemma tonality_formula_witness :
  tonalityScore (computeScores zeroStore) =n=
    Fin (spec_tonality (summaryMean (zeroStore pitchSaliences))
           (summaryMean (zeroStore inharmonicities))
           (summaryMean (zeroStore spectralEntropies))).
Proof.
  apply (tonality_formula zeroStore); repeat constructor.
Defined.

(** ** High-low balance *)

(** C9, as stated, fails: for a spectrum of five bins the collected
    low-band mean is NaN, so the sum of the two means is not 0, and the score
    is 50; a negative sum gives 50 as well, where the clamped percentage
    is 0. *)
Lemma highLowBalance_not_only_zero :
  let s' := fst (collect fiveBinEssentia (toyAudio 5000) (Fin 44100)
                   (Z.to_nat (length_ (toyAudio 5000))) emptyStore) in
  mean (calculateStats (s' lowFreqEnergies)) = NaN /\
  mean (calculateStats (s' highFreqEnergies)) =n= Fin 1 /\
  highLowBalance (computeScores s') = Fin 50 /\
  spec_highLowBalance (mean (calculateStats (s' lowFreqEnergies)))
    (mean (calculateStats (s' highFreqEnergies))) = NaN /\
  highLowBalanceOf (Fin (-3)) (Fin 1) = Fin 50 /\
  spec_highLowBalance (Fin (-3)) (Fin 1) =n= Fin 0.
Proof.
  vm_compute. repeat split; reflexivity.
Qed.

(** C9 (amended): the score is 50 whenever the sum of the two means is not
    greater than 0 (zero, negative or NaN), and for a positive sum it is
    highEnergyMean / (lowEnergyMean + highEnergyMean) * 100 clamped into
    [0,100]. *)
Theorem highLowBalance_guard (low high : Q) :
  (0 < low + high ->
   highLowBalanceOf (Fin low) (Fin high) =n=
     Fin (Qmin 100 (Qmax 0 (high / (low + high) * 100)))) /\
  (low + high <= 0 -> highLowBalanceOf (Fin low) (Fin high) = Fin 50) /\
  (forall x : num,
     highLowBalanceOf NaN x = Fin 50 /\ highLowBalanceOf x NaN = Fin 50).
Proof.
  split; [|split].
  - intros H. unfold highLowBalanceOf. cbn [add].
    destruct (gtb_Fin_0 (low + high)) as [_ G]. rewrite (G H).
    rewrite div_Fin.
    + cbn [mul]. rewrite Math_max_Fin, Math_min_Fin. cbn [num_eq].
      now rewrite qmin_Qmin, qmax_Qmax.
    + intros E. rewrite E in H. now apply Qlt_irrefl in H.
  - intros H. unfold highLowBalanceOf. cbn [add].
    destruct (gtb (Fin (low + high)) (Fin 0)) eqn:G; [|reflexivity].
    apply gtb_Fin_0 in G. exfalso. apply (Qlt_irrefl 0).
    eapply Qlt_le_trans; eassumption.
  - intros x. split; [reflexivity|]. now destruct x.
Qed.

Lemma highLowBalance_guard_witness :
  highLowBalanceOf (Fin 1) (Fin 3) =n=
    Fin (Qmin 100 (Qmax 0 (3 / (1 + 3) * 100))) /\
  highLowBalanceOf (Fin (-3)) (Fin 1) = Fin 50.
Proof.
  split.
  - apply (proj1 (highLowBalance_guard 1 3)). reflexivity.
  - apply (proj1 (proj2 (highLowBalance_guard (-3) 1))). discriminate.
Defined.

(** ** The bar renderer *)

Lemma length_append (s1 s2 : string) :
  String.length (s1 ++ s2) = (String.length s1 + String.length s2)%nat.
Proof. induction s1 as [|c s1 IH]; simpl; [reflexivity|now rewrite IH]. Qed.

Lemma length_repeat_char (c : ascii) (n : nat) :
  String.length (repeat_string (String c EmptyString) n) = n.
Proof. induction n as [|n IH]; simpl; [reflexivity|now rewrite IH]. Qed.

Lemma trunc_inject_Z (z : Z) : trunc (inject_Z z) = z.
Proof. unfold trunc. simpl. apply Z.quot_1_r. Qed.

Lemma trunc_20_minus (z : Z) : trunc (20 + - inject_Z z) = (20 - z)%Z.
Proof.
  unfold trunc, Qplus, Qopp, inject_Z. cbn [Qnum Qden].
  change (Z.pos (1 * 1)) with 1%Z. rewrite Z.quot_1_r. lia.
Qed.

Lemma String_repeat_ofZ (s : string) (z : Z) :
  String_repeat s (ofZ z) =
  if (z <? 0)%Z then None else Some (repeat_string s (Z.to_nat z)).
Proof. unfold String_repeat, ofZ. now rewrite trunc_inject_Z. Qed.

Lemma createBar_Fin (q : Q) :
  createBar (Fin q) =
  if (filledOf q <? 0)%Z then None
  else if (20 - filledOf q <? 0)%Z then None
       else Some (repeat_string "#" (Z.to_nat (filledOf q))
                  ++ repeat_string "-" (Z.to_nat (20 - filledOf q)))%string.
Proof.
  unfold createBar. rewrite div_Fin by discriminate.
  cbn [Math_round]. fold (filledOf q). rewrite String_repeat_ofZ.
  destruct (filledOf q <? 0)%Z; [reflexivity|].
  unfold ofZ. cbn [sub neg add]. unfold String_repeat.
  rewrite trunc_20_minus. now destruct (20 - filledOf q <? 0)%Z.
Qed.

Lemma filledOf_range (q : Q) :
  ((0 <= filledOf q)%Z <-> - (5 # 2) <= q) /\
  ((filledOf q <= 20)%Z <-> q < 205 # 2).
Proof.
  unfold filledOf.
  pose proof (Qfloor_le (q / 5 + (1 # 2))) as Hlo.
  pose proof (Qlt_floor (q / 5 + (1 # 2))) as Hhi.
  set (n := Qfloor (q / 5 + (1 # 2))) in *.
  assert (Hq : q / 5 == q * (1 # 5)) by (unfold Qdiv; reflexivity).
  rewrite Hq in Hlo, Hhi.
  split; split; intros H.
  - assert (inject_Z 0 <= inject_Z n) by (rewrite <- Zle_Qle; lia).
    change (inject_Z 0) with 0 in *. lra.
  - destruct (Z_lt_le_dec n 0) as [Hn|Hn]; [exfalso|assumption].
    assert (inject_Z (n + 1) <= inject_Z 0) by (rewrite <- Zle_Qle; lia).
    change (inject_Z 0) with 0 in *. lra.
  - assert (inject_Z (n + 1) <= inject_Z 21) by (rewrite <- Zle_Qle; lia).
    change (inject_Z 21) with 21 in *. lra.
  - destruct (Z_lt_le_dec 20 n) as [Hn|Hn]; [exfalso|assumption].
    assert (inject_Z 21 <= inject_Z n) by (rewrite <- Zle_Qle; lia).
    change (inject_Z 21) with 21 in *. lra.
Qed.

(** C5, as stated, fails: a score of 103 or of -3 makes [repeat] throw a
    RangeError instead of giving a clamped bar, and NaN gives an empty bar. *)
Lemma createBar_no_clamp :
  createBar (Fin 103) = None /\
  createBar (Fin (-3)) = None /\
  createBar NaN = Some EmptyString.
Proof. repeat split; reflexivity. Qed.

(** C5 (amended): for a finite score in [-2.5, 102.5) the bar is
    round(score/5) '#' followed by 20 - round(score/5) '-', 20 characters in
    all, with round(score/5) in [0,20]; a score outside that interval is not
    clamped: [createBar] throws for a finite or infinite one, and returns the
    empty string for NaN. *)
Theorem createBar_unclamped (q : Q) :
  (- (5 # 2) <= q < 205 # 2 ->
   (0 <= filledOf q <= 20)%Z /\
   exists bar : string,
     createBar (Fin q) = Some bar /\
     bar = (repeat_string "#" (Z.to_nat (filledOf q))
            ++ repeat_string "-" (20 - Z.to_nat (filledOf q)))%string /\
     String.length bar = 20%nat) /\
  (q < - (5 # 2) \/ 205 # 2 <= q -> createBar (Fin q) = None) /\
  createBar NaN = Some EmptyString /\
  createBar PInf = None /\ createBar NInf = None.
Proof.
  split; [|split; [|repeat split; reflexivity]];
    destruct (filledOf_range q) as [Hlo Hhi]; rewrite createBar_Fin.
  - intros [H1 H2]. apply Hlo in H1. apply Hhi in H2.
    split; [lia|].
    destruct (Z.ltb_spec (filledOf q) 0); [lia|].
    destruct (Z.ltb_spec (20 - filledOf q) 0); [lia|].
    replace (Z.to_nat (20 - filledOf q)) with (20 - Z.to_nat (filledOf q))%nat by lia.
    eexists. split; [reflexivity|]. split; [reflexivity|].
    rewrite length_append, !length_repeat_char. lia.
  - intros [H|H].
    + destruct (Z.ltb_spec (filledOf q) 0) as [|Hn]; [reflexivity|].
      apply Hlo in Hn. lra.
    + destruct (Z.ltb_spec (filledOf q) 0) as [|_]; [reflexivity|].
      destruct (Z.ltb_spec (20 - filledOf q) 0) as [|Hn]; [reflexivity|].
      assert (Hn' : (filledOf q <= 20)%Z) by lia. apply Hhi in Hn'. lra.
Qed.

Lemma createBar_unclamped_witness :
  createBar (Fin 47) = Some "#########-----------"%string /\
  createBar (Fin 103) = None.
Proof.
  split.
  - destruct (proj1 (createBar_unclamped 47)) as [_ [bar [E [B _]]]].
    + split; [discriminate | reflexivity].
    + rewrite E, B. reflexivity.
  - apply (proj1 (proj2 (createBar_unclamped 103))). right. discriminate.
Defined.

(** ** The frame loop *)

Lemma forLoop_runAll {S} (body : Z -> Exc S unit) (bound step : Z) (fuel : nat) :
  forall (i : Z) (s : S),
    forLoop fuel bound step body i s =
    (runAll body (offsetsFrom fuel bound step i) ;;;
     finish (exhausted fuel bound step i)) s.
Proof.
  induction fuel as [|n IH]; intros i s; simpl;
    destruct (i <? bound)%Z; try reflexivity.
  cbn [runAll]. unfold bind.
  destruct (body i s) as [s' [[]| |]]; [|reflexivity|reflexivity].
  rewrite IH. reflexivity.
Qed.

Lemma exhausted_enough (bound step : Z) (fuel : nat) :
  (0 < step)%Z ->
  forall i : Z, (bound - i <= Z.of_nat fuel)%Z ->
    exhausted fuel bound step i = false.
Proof.
  intros Hstep. induction fuel as [|n IH]; intros i Hf; simpl;
    destruct (Z.ltb_spec i bound); try reflexivity.
  - lia.
  - apply IH. lia.
Qed.

Lemma runAll_record (l : list Z) (log : list Z) :
  runAll record l log = (log ++ l, Ok tt).
Proof.
  revert log. induction l as [|i l IH]; intros log; simpl.
  - unfold ret. now rewrite app_nil_r.
  - unfold bind, record at 1. rewrite IH. now rewrite <- app_assoc.
Qed.

Lemma frameOffsets_offsetsFrom (len : Z) :
  frameOffsets len = offsetsFrom (Z.to_nat len) (len - frameSize) hopSize 0.
Proof.
  unfold frameOffsets. rewrite forLoop_runAll. unfold bind.
  rewrite runAll_record. reflexivity.
Qed.

Lemma offsetsFrom_In (bound step : Z) (fuel : nat) :
  (0 < step)%Z ->
  forall i x : Z, (bound - i <= Z.of_nat fuel)%Z ->
    In x (offsetsFrom fuel bound step i) <->
    exists k : Z, (0 <= k)%Z /\ x = (i + k * step)%Z /\ (x < bound)%Z.
Proof.
  intros Hstep. induction fuel as [|n IH]; intros i x Hf; simpl;
    destruct (Z.ltb_spec i bound) as [Hi|Hi].
  - lia.
  - split; [contradiction|]. intros (k & Hk & -> & Hx). nia.
  - simpl. rewrite IH by lia. split.
    + intros [<-|(k & Hk & -> & Hx)].
      * exists 0%Z. lia.
      * exists (k + 1)%Z. lia.
    + intros (k & Hk & -> & Hx).
      destruct (Z.eq_dec k 0) as [->|Hk0]; [left; lia|].
      right. exists (k - 1)%Z. lia.
  - split; [contradiction|]. intros (k & Hk & -> & Hx). nia.
Qed.

Lemma offsetsFrom_progression (bound step : Z) (fuel : nat) :
  forall i : Z,
    offsetsFrom fuel bound step i =
    map (fun k => (i + Z.of_nat k * step)%Z)
      (seq 0 (List.length (offsetsFrom fuel bound step i))).
Proof.
  induction fuel as [|n IH]; intros i; simpl;
    destruct (i <? bound)%Z; try reflexivity.
  simpl. f_equal; [lia|].
  rewrite <- seq_shift, map_map. rewrite IH at 1.
  apply map_ext. intros k. lia.
Qed.

(** C4, as stated, fails: a buffer of exactly one frame (4096 samples) has
    0 <= L - F, yet offset 0 is not visited; and for 6144 samples the offset
    2048 = L - F is not visited. *)
Lemma frame_loop_excludes_last_fit :
  frameOffsets 4096 = [] /\ (0 <= 4096 - frameSize)%Z /\
  frameOffsets 6144 = [0%Z] /\ (2048 <= 6144 - frameSize)%Z.
Proof. vm_compute. repeat split; discriminate. Qed.

(** C4 (amended): the frame loop visits exactly the offsets 0, H, 2H, ...
    that are strictly below L - F, in increasing order; none when L <= F;
    and a buffer of 10000 samples yields [0, 2048, 4096]. *)
Theorem frame_offsets_strict (len : Z) :
  (forall i : Z,
     In i (frameOffsets len) <->
     exists k : Z, (0 <= k)%Z /\ i = (k * hopSize)%Z /\ (i < len - frameSize)%Z) /\
  frameOffsets len =
    map (fun k => (Z.of_nat k * hopSize)%Z)
      (seq 0 (List.length (frameOffsets len))) /\
  ((len <= frameSize)%Z <-> frameOffsets len = []) /\
  frameOffsets 10000 = [0; 2048; 4096]%Z.
Proof.
  assert (Hin : forall i : Z,
     In i (frameOffsets len) <->
     exists k : Z, (0 <= k)%Z /\ i = (k * hopSize)%Z /\ (i < len - frameSize)%Z).
  { intros i. rewrite frameOffsets_offsetsFrom.
    rewrite offsetsFrom_In; [reflexivity|reflexivity|unfold frameSize; lia]. }
  split; [exact Hin|]. split; [|split].
  - rewrite frameOffsets_offsetsFrom.
    rewrite offsetsFrom_progression at 1. reflexivity.
  - split.
    + intros H. destruct (frameOffsets len) as [|x l] eqn:E; [reflexivity|].
      exfalso. destruct (proj1 (Hin x)) as (k & Hk & -> & Hx); [now left|].
      unfold hopSize in Hx. lia.
    + intros E. destruct (Z_le_gt_dec len frameSize) as [H|H]; [assumption|].
      exfalso. assert (Hi : In 0%Z (frameOffsets len)).
      { apply Hin. exists 0%Z. lia. }
      rewrite E in Hi. contradiction.
  - reflexivity.
Qed.

(** ** calculateStats *)

Lemma gtb_sub_Fin (a b : Q) : gtb (Fin a - Fin b) (Fin 0) = true <-> b < a.
Proof.
  cbn [sub neg add]. rewrite gtb_Fin_0. split; intros H; lra.
Qed.

Lemma insert_perm (cmp : num -> num -> num) (x : num) (l : list num) :
  Permutation (insert cmp x l) (x :: l).
Proof.
  induction l as [|y l IH]; cbn [insert]; [reflexivity|].
  destruct (gtb (cmp x y) (Fin 0)); [|reflexivity].
  rewrite IH. apply perm_swap.
Qed.

Lemma sort_perm (cmp : num -> num -> num) (l : list num) :
  Permutation (sort cmp l) l.
Proof.
  induction l as [|x l IH]; [reflexivity|].
  change (sort cmp (x :: l)) with (insert cmp x (sort cmp l)).
  rewrite insert_perm. now constructor.
Qed.

Lemma insert_HdRel (x y : num) (l : list num) :
  num_le y x -> HdRel num_le y l -> HdRel num_le y (insert sub x l).
Proof.
  intros Hyx H. destruct l as [|z l]; cbn [insert].
  - now constructor.
  - destruct (gtb (x - z) (Fin 0)); constructor; [now inversion H|assumption].
Qed.

Lemma insert_sorted (x : num) (l : list num) :
  finite x -> Forall finite l -> ascending l -> ascending (insert sub x l).
Proof.
  intros Hx Hl Hs. destruct x as [a| | |]; try contradiction.
  induction Hs as [|y l Hs IH Hd]; cbn [insert].
  - repeat constructor.
  - inversion Hl as [|? ? Hy Hl']; subst.
    destruct y as [b| | |]; try contradiction.
    destruct (gtb (Fin a - Fin b) (Fin 0)) eqn:G.
    + apply gtb_sub_Fin in G.
      constructor; [now apply IH|].
      apply insert_HdRel; [|assumption].
      unfold num_le. simpl. now apply Qlt_le_weak.
    + constructor; [now constructor|].
      constructor. unfold num_le. simpl.
      apply Qnot_lt_le. intros H. apply gtb_sub_Fin in H. congruence.
Qed.

Lemma sort_sorted (l : list num) : Forall finite l -> ascending (sort sub l).
Proof.
  induction 1 as [|x l Hx Hl IH]; [constructor|].
  change (sort sub (x :: l)) with (insert sub x (sort sub l)).
  apply insert_sorted; [assumption| |assumption].
  now rewrite sort_perm.
Qed.

Lemma length_sort (cmp : num -> num -> num) (l : list num) :
  length_ (sort cmp l) = length_ l.
Proof. unfold length_. now rewrite (Permutation_length (sort_perm cmp l)). Qed.

Lemma index_ofZ (l : list num) (k : Z) :
  (0 <= k)%Z -> index l (ofZ k) = nth_error l (Z.to_nat k).
Proof.
  intros H. unfold index, ofZ. rewrite Qfloor_Z.
  rewrite Qeq_bool_refl. destruct (Z.leb_spec 0 k); [reflexivity|lia].
Qed.

(** [Math.floor(n * 0.9)] for an integer [n]. *)
Lemma floor_nine_tenths (n : Z) :
  Math_floor (ofZ n * Fin 0.9)%num = ofZ (n * 9 / 10).
Proof. reflexivity. Qed.

Lemma seriesMin_le (l : list num) : Forall (fun x => seriesMin l <= val x) l.
Proof.
  destruct l as [|x t]; [constructor|]. simpl.
  induction t as [|y t IH]; simpl.
  - repeat constructor. apply Qle_refl.
  - inversion IH as [|? ? Hx Ht]; subst.
    set (m := fold_right (fun y a => Qmin (val y) a) (val x) t) in *.
    assert (H1 : Qmin (val y) m <= m) by apply Q.le_min_r.
    constructor; [eapply Qle_trans; eassumption|].
    constructor; [apply Q.le_min_l|].
    eapply Forall_impl; [|exact Ht]. simpl. intros a Ha.
    eapply Qle_trans; eassumption.
Qed.

Lemma seriesMax_ge (l : list num) : Forall (fun x => val x <= seriesMax l) l.
Proof.
  destruct l as [|x t]; [constructor|]. simpl.
  induction t as [|y t IH]; simpl.
  - repeat constructor. apply Qle_refl.
  - inversion IH as [|? ? Hx Ht]; subst.
    set (m := fold_right (fun y a => Qmax (val y) a) (val x) t) in *.
    assert (H1 : m <= Qmax (val y) m) by apply Q.le_max_r.
    constructor; [eapply Qle_trans; eassumption|].
    constructor; [apply Q.le_max_l|].
    eapply Forall_impl; [|exact Ht]. simpl. intros a Ha.
    eapply Qle_trans; eassumption.
Qed.

Lemma inject_Z_length_cons {A} (x : A) (l : list A) :
  inject_Z (length_ (x :: l)) == inject_Z (length_ l) + 1.
Proof.
  unfold length_. cbn [List.length]. rewrite Nat2Z.inj_succ, <- Z.add_1_r.
  now rewrite inject_Z_plus.
Qed.

Lemma Qtotal_lower (lo : Q) (l : list num) :
  Forall (fun x => lo <= val x) l ->
  lo * inject_Z (length_ l) <= Qtotal (map val l).
Proof.
  induction 1 as [|x l Hx _ IH].
  - simpl. change (inject_Z (length_ [])) with 0. lra.
  - rewrite inject_Z_length_cons. simpl. lra.
Qed.

Lemma Qtotal_upper (hi : Q) (l : list num) :
  Forall (fun x => val x <= hi) l ->
  Qtotal (map val l) <= hi * inject_Z (length_ l).
Proof.
  induction 1 as [|x l Hx _ IH].
  - simpl. change (inject_Z (length_ [])) with 0. lra.
  - rewrite inject_Z_length_cons. simpl. lra.
Qed.

Lemma arithmeticMean_bounds (lo hi : Q) (l : list num) :
  l <> [] ->
  Forall (fun x => lo <= val x) l -> Forall (fun x => val x <= hi) l ->
  lo <= arithmeticMean l <= hi.
Proof.
  intros Hne Hlo Hhi. unfold arithmeticMean.
  assert (Hn : 0 < inject_Z (length_ l))
    by now apply inject_Z_pos, length_pos_nonempty.
  split.
  - apply Qle_shift_div_l; [assumption|now apply Qtotal_lower].
  - apply Qle_shift_div_r; [assumption|now apply Qtotal_upper].
Qed.

Lemma calculateStats_percentile90 (arr : list num) :
  arr <> [] ->
  percentile90 (calculateStats arr) =
  nth_error (sort sub arr) (Z.to_nat (length_ arr * 9 / 10)).
Proof.
  intros Hne. pose proof (length_pos_nonempty arr Hne) as Hlen.
  unfold calculateStats.
  destruct (Z.eqb_spec (length_ arr) 0); [lia|]. cbn [percentile90].
  rewrite floor_nine_tenths, length_sort.
  apply index_ofZ. apply Z.div_pos; lia.
Qed.

(** C2, as stated, fails for the mean: in binary64 the mean of
    [0.1, 0.1, 0.1] is the double just above 0.1, greater than every entry,
    and the mean of [0.7, 0.7, 0.7] is the double just below 0.7, smaller
    than every entry; neither is the arithmetic mean, and neither lies
    between the smallest and the largest entry. *)
Lemma mean64_outside_min_max :
  (mean64 [dec64 1 10; dec64 1 10; dec64 1 10]
     = PrimFloat.next_up (dec64 1 10) /\
   PrimFloat.ltb (dec64 1 10)
     (mean64 [dec64 1 10; dec64 1 10; dec64 1 10]) = true) /\
  (mean64 [dec64 7 10; dec64 7 10; dec64 7 10]
     = PrimFloat.next_down (dec64 7 10) /\
   PrimFloat.ltb (mean64 [dec64 7 10; dec64 7 10; dec64 7 10])
     (dec64 7 10) = true).
Proof. vm_compute. repeat split; reflexivity. Qed.

(** C2 (amended): [calculateStats] maps the empty series to mean 0 and
    percentile90 0.  On a non-empty series the mean is the sum of the
    entries, added from left to right starting at 0, divided by N, each
    operation rounded to binary64: the arithmetic mean up to that rounding
    only, with no guarantee of lying between the smallest and the largest
    entry.  On a non-empty series of finite numbers percentile90 is the
    entry of the ascending-sorted series at index floor(0.9 N) clamped to
    N - 1 (the clamp never acts: floor(0.9 N) is at most N - 1). *)
Theorem calculateStats_summary :
  (mean (calculateStats []) = Fin 0 /\
   mean64 [] = ofZ64 0 /\
   percentile90 (calculateStats []) = Some (Fin 0)) /\
  (forall arr : list PrimFloat.float,
     arr <> [] ->
     mean64 arr = PrimFloat.div (fold_left PrimFloat.add arr (ofZ64 0))
                                (ofZ64 (length_ arr))) /\
  forall arr : list num,
    arr <> [] -> Forall finite arr ->
    let N := length_ arr in
    let sorted := sort sub arr in
    Permutation sorted arr /\ ascending sorted /\
    (Qfloor (0.9 * inject_Z N) <= N - 1)%Z /\
    exists x : num,
      nth_error sorted (Z.to_nat (Z.min (Qfloor (0.9 * inject_Z N)) (N - 1)))
        = Some x /\
      percentile90 (calculateStats arr) = Some x.
Proof.
  split; [repeat split; reflexivity|]. split.
  { intros arr Hne. pose proof (length_pos_nonempty arr Hne) as Hlen.
    unfold mean64, reduce.
    destruct (Z.eqb_spec (length_ arr) 0) as [E|_]; [lia|reflexivity]. }
  intros arr Hne Hfin N sorted.
  pose proof (length_pos_nonempty arr Hne) as Hlen. fold N in Hlen.
  assert (Hfloor : Qfloor (0.9 * inject_Z N) = (N * 9 / 10)%Z).
  { unfold Qfloor, Qmult, inject_Z. cbn [Qnum Qden].
    f_equal. apply Z.mul_comm. }
  assert (Hidx : (0 <= N * 9 / 10 <= N - 1)%Z).
  { split; [apply Z.div_pos; lia|].
    apply Z.lt_le_pred, Z.div_lt_upper_bound; lia. }
  split; [|split; [|split]].
  - apply sort_perm.
  - now apply sort_sorted.
  - rewrite Hfloor. lia.
  - rewrite Hfloor, Z.min_l by lia.
    rewrite calculateStats_percentile90 by assumption. fold N. fold sorted.
    destruct (nth_error sorted (Z.to_nat (N * 9 / 10))) as [x|] eqn:E.
    + exists x. now split.
    + exfalso. apply nth_error_None in E.
      assert (HL : Z.of_nat (List.length sorted) = N)
        by apply (length_sort sub arr).
      lia.
Qed.

Lemma calculateStats_summary_witness :
  percentile90 (calculateStats (map ofZ [5; 3; 9; 1; 7; 2; 8; 4; 6; 0]%Z))
    = Some (Fin 9) /\
  mean64 [ofZ64 3; ofZ64 1; ofZ64 2] = ofZ64 2.
Proof.
  split.
  - destruct (proj2 (proj2 calculateStats_summary)
                (map ofZ [5; 3; 9; 1; 7; 2; 8; 4; 6; 0]%Z))
      as (_ & _ & _ & x & Hx & ->).
    + discriminate.
    + repeat constructor.
    + rewrite <- Hx. reflexivity.
  - rewrite (proj1 (proj2 calculateStats_summary)
               [ofZ64 3; ofZ64 1; ofZ64 2]) by discriminate.
    vm_compute. reflexivity.
Defined.

(** ** The feature collector *)

Lemma pushOpt_get (f g : series) (o : option num) (s : Store) :
  pushOpt f o s g = s g ++ (if series_eq_dec g f then option_list o else []).
Proof.
  unfold pushOpt, push_store. destruct o as [v|]; simpl;
    destruct (series_eq_dec g f); simpl; now rewrite ?app_nil_r.
Qed.

Lemma bind_Ok {S A B} (c : Exc S A) (k : A -> Exc S B) (s s' : S) (a : A) :
  c s = (s', Ok a) -> (x <- c ;; k x) s = k a s'.
Proof. intros H. unfold bind. now rewrite H. Qed.

Lemma call_Some {S A} (o : option A) (a : A) (s : S) :
  o = Some a -> call o s = (s, Ok a).
Proof. now intros ->. Qed.

Lemma try_push (f : series) (o : option num) (s : Store) :
  try (v <- call o ;; push f v) s = (pushOpt f o s, Ok tt).
Proof. now destruct o. Qed.

Lemma try_push_map (f : series) (g : num -> num) (o : option num) (s : Store) :
  try (v <- call o ;; push f (g v)) s = (pushOpt f (option_map g o) s, Ok tt).
Proof. now destruct o. Qed.

Lemma try_push2 {A} (f : series) (o : option A) (k : A -> option num)
  (s : Store) :
  try (p <- call o ;; v <- call (k p) ;; push f v) s =
  (pushOpt f (match o with Some p => k p | None => None end) s, Ok tt).
Proof.
  destruct o as [p|]; [|reflexivity].
  unfold try, bind, call, push. now destruct (k p).
Qed.

Section CollectorFacts.

Variable E : Essentia.
Variable audio : list num.
Variable sampleRate : num.

Lemma flux_block (i : Z) (sp : Vec E) (s : Store) :
  (if (i >? 0)%Z then
     try (let prevFrame :=
            slice audio (ofZ (i - hopSize)) (ofZ (i - hopSize + frameSize)) in
          prevVector <- call (arrayToVector E prevFrame) ;;
          prevWindowed <-
            call (Windowing E prevVector true frameSize "blackmanharris62") ;;
          prevSpectrum <- call (Spectrum E prevWindowed) ;;
          flux <- call (Flux E prevSpectrum sp) ;;
          push spectralFluxes flux)
   else ret tt) s =
  (pushOpt spectralFluxes (if (i >? 0)%Z then fluxAt E audio i sp else None) s, Ok tt).
Proof.
  destruct (i >? 0)%Z; [|reflexivity].
  unfold fluxAt, spectrumAt, prepare, frameVectorAt, windowSpectrum.
  unfold try, bind, call, push. cbv zeta.
  destruct (arrayToVector E _) as [pv|]; [|reflexivity].
  destruct (Windowing E pv true frameSize "blackmanharris62") as [pw|];
    [|reflexivity].
  destruct (Spectrum E pw) as [ps|]; [|reflexivity]. simpl.
  now destruct (Flux E ps sp).
Qed.

Lemma frameBody_prepared (i : Z) (fv sp : Vec E) (s : Store) :
  prepare E audio i = Some (fv, sp) ->
  frameBody E audio sampleRate i s = (afterFrame E audio sampleRate i fv sp s, Ok tt).
Proof.
  unfold prepare, frameVectorAt, windowSpectrum. intros H.
  destruct (arrayToVector E _) as [v|] eqn:Hv; [|discriminate].
  destruct (Windowing E v true frameSize "blackmanharris62") as [w|] eqn:Hw;
    [|discriminate].
  destruct (Spectrum E w) as [sp'|] eqn:Hsp; [|discriminate].
  injection H as -> ->.
  unfold frameBody. cbv zeta.
  rewrite (bind_Ok _ _ _ _ _ (call_Some _ _ _ Hv)).
  rewrite (bind_Ok _ _ _ _ _ (call_Some _ _ _ Hw)).
  rewrite (bind_Ok _ _ _ _ _ (call_Some _ _ _ Hsp)).
  rewrite (bind_Ok _ _ _ _ _ (try_push _ _ _)).
  rewrite (bind_Ok _ _ _ _ _ (try_push_map _ _ _ _)).
  rewrite (bind_Ok _ _ _ _ _ (try_push _ _ _)).
  rewrite (bind_Ok _ _ _ _ _ (try_push2 _ _ _ _)).
  rewrite (bind_Ok _ _ _ _ _ (try_push _ _ _)).
  rewrite (bind_Ok _ _ _ _ _ (try_push2 _ _ _ _)).
  rewrite (bind_Ok _ _ _ _ _ (try_push _ _ _)).
  rewrite (bind_Ok _ _ _ _ _ (try_push_map _ _ _ _)).
  rewrite (bind_Ok _ _ _ _ _ (try_push _ _ _)).
  rewrite (bind_Ok _ _ _ _ _ (try_push _ _ _)).
  rewrite (bind_Ok _ _ _ _ _ (flux_block _ _ _)).
  unfold bind at 1. unfold try at 1. unfold bind at 1. unfold push at 1 2.
  rewrite (bind_Ok _ _ _ _ _ (try_push _ _ _)).
  rewrite (bind_Ok _ _ _ _ _ (try_push2 _ _ _ _)).
  rewrite try_push_map.
  reflexivity.
Qed.

Lemma frameBody_unprepared (i : Z) (s : Store) :
  prepare E audio i = None -> frameBody E audio sampleRate i s = (s, Throw).
Proof.
  unfold prepare, frameVectorAt, windowSpectrum, frameBody. cbv zeta.
  intros H. unfold bind at 1. unfold call at 1.
  destruct (arrayToVector E _) as [v|]; [|reflexivity].
  unfold bind at 1. unfold call at 1.
  destruct (Windowing E v true frameSize "blackmanharris62") as [w|];
    [|reflexivity].
  unfold bind at 1. unfold call at 1.
  destruct (Spectrum E w) as [sp|]; [discriminate|reflexivity].
Qed.

Lemma afterFrame_get (i : Z) (fv sp : Vec E) (s : Store) (f : series) :
  afterFrame E audio sampleRate i fv sp s f = s f ++ option_list (attempt E audio sampleRate i fv sp f).
Proof.
  unfold afterFrame. cbv zeta. rewrite !pushOpt_get.
  destruct f; cbn [series_eq_dec series_rec series_rect];
    rewrite ?app_nil_r; reflexivity.
Qed.

Lemma processed_all (l : list Z) :
  forallb (prepared E audio) l = true -> processed E audio l = l.
Proof.
  induction l as [|i l IH]; simpl; [reflexivity|].
  destruct (prepared E audio i); simpl; [|discriminate].
  intros H. now rewrite IH.
Qed.

Lemma processed_prefix (l : list Z) : exists rest, l = processed E audio l ++ rest.
Proof.
  induction l as [|i l [rest IH]]; simpl; [now exists []|].
  destruct (prepared E audio i); [|now exists (i :: l)].
  exists rest. simpl. now f_equal.
Qed.

Lemma runAll_frames (l : list Z) :
  forall s : Store,
  exists s' : Store,
    runAll (frameBody E audio sampleRate) l s =
      (s', if forallb (prepared E audio) l then Ok tt else Throw) /\
    forall f : series,
      s' f = s f ++ flat_map (collected E audio sampleRate f) (processed E audio l).
Proof.
  induction l as [|i l IH]; intros s; cbn [runAll forallb processed].
  - exists s. split; [reflexivity|]. intros f. simpl. now rewrite app_nil_r.
  - unfold prepared at 1 3. unfold bind.
    destruct (prepare E audio i) as [[fv sp]|] eqn:P.
    + rewrite (frameBody_prepared i fv sp s P).
      destruct (IH (afterFrame E audio sampleRate i fv sp s)) as (s' & Hrun & Hs').
      exists s'. split; [exact Hrun|].
      intros f. rewrite Hs', afterFrame_get. cbn [flat_map].
      unfold collected at 2. rewrite P. now rewrite app_assoc.
    + rewrite (frameBody_unprepared i s P).
      exists s. split; [reflexivity|]. intros f. simpl. now rewrite app_nil_r.
Qed.

(** The frame loop with any amount of fuel: the arrays hold what the
    processed E audio frames pushed. *)
Lemma frameLoop_store (fuel : nat) (s' : Store) (r : result unit) :
  forLoop fuel (length_ audio - frameSize) hopSize
    (frameBody E audio sampleRate) 0 emptyStore = (s', r) ->
  forall f : series,
    s' f =
    flat_map (collected E audio sampleRate f)
      (processed E audio (offsetsFrom fuel (length_ audio - frameSize) hopSize 0)).
Proof.
  rewrite forLoop_runAll. unfold bind, finish.
  destruct (runAll_frames
              (offsetsFrom fuel (length_ audio - frameSize) hopSize 0)
              emptyStore) as (s1 & Hrun & Hs1).
  rewrite Hrun. intros H f.
  assert (Hs : s' = s1)
    by (destruct (forallb (prepared E audio) _); [destruct (exhausted _ _ _ _)|];
        now inversion H).
  rewrite Hs, Hs1. reflexivity.
Qed.

Lemma frameLoop_completes :
  forallb (prepared E audio) (frameOffsets (length_ audio)) = true ->
  exists s' : Store,
    forLoop (Z.to_nat (length_ audio)) (length_ audio - frameSize) hopSize
      (frameBody E audio sampleRate) 0 emptyStore = (s', Ok tt).
Proof.
  rewrite frameOffsets_offsetsFrom. intros H.
  rewrite forLoop_runAll. unfold bind, finish.
  destruct (runAll_frames
              (offsetsFrom (Z.to_nat (length_ audio))
                 (length_ audio - frameSize) hopSize 0)
              emptyStore) as (s1 & Hrun & _).
  rewrite Hrun, H.
  rewrite exhausted_enough; [now exists s1|reflexivity|].
  unfold frameSize. lia.
Qed.

(** The arrays after [collect]: only the last block touches
    [dynamicComplexities], and it touches nothing else. *)
Lemma collect_store (fuel : nat) (s' : Store) (r : result unit) :
  collect E audio sampleRate fuel emptyStore = (s', r) ->
  forall f : series,
    f <> dynamicComplexities ->
    s' f =
    flat_map (collected E audio sampleRate f)
      (processed E audio (offsetsFrom fuel (length_ audio - frameSize) hopSize 0)).
Proof.
  unfold collect. unfold bind at 1.
  destruct (forLoop fuel _ _ _ 0 emptyStore) as [s1 r1] eqn:L.
  pose proof (frameLoop_store fuel s1 r1 L) as Hs1.
  destruct r1 as [[]| |]; intros H f Hf.
  - rewrite try_push2 in H. inversion H; subst.
    rewrite pushOpt_get. destruct (series_eq_dec f dynamicComplexities);
      [contradiction|]. rewrite app_nil_r. apply Hs1.
  - inversion H; subst. apply Hs1.
  - inversion H; subst. apply Hs1.
Qed.

Lemma collect_completes :
  forallb (prepared E audio) (frameOffsets (length_ audio)) = true ->
  exists s' : Store,
    collect E audio sampleRate (Z.to_nat (length_ audio)) emptyStore
      = (s', Ok tt).
Proof.
  intros H. destruct (frameLoop_completes H) as (s1 & L).
  unfold collect. unfold bind at 1. rewrite L. rewrite try_push2.
  eauto.
Qed.

(** The fuel given by [measureAudioCharacteristics] is always enough. *)
Lemma collect_fuel_enough (s' : Store) (r : result unit) :
  collect E audio sampleRate (Z.to_nat (length_ audio)) emptyStore = (s', r) ->
  r <> OutOfFuel.
Proof.
  unfold collect. unfold bind at 1. rewrite forLoop_runAll.
  unfold bind at 1, finish.
  destruct (runAll_frames
              (offsetsFrom (Z.to_nat (length_ audio))
                 (length_ audio - frameSize) hopSize 0)
              emptyStore) as (s1 & -> & _).
  rewrite exhausted_enough; [|reflexivity|unfold frameSize; lia].
  destruct (forallb (prepared E audio) _).
  - rewrite try_push2. intros H. inversion H. discriminate.
  - intros H. inversion H. discriminate.
Qed.

End CollectorFacts.

(** [measureAudioCharacteristics] returns: it completes or throws. *)
Lemma measureAudioCharacteristics_returns (E : Essentia) (audio : list num)
  (sampleRate : num) :
  snd (measureAudioCharacteristics E audio sampleRate) <> OutOfFuel.
Proof.
  unfold measureAudioCharacteristics.
  destruct (collect E audio sampleRate (Z.to_nat (length_ audio)) emptyStore)
    as [s r] eqn:C.
  pose proof (collect_fuel_enough E audio sampleRate s r C) as Hr.
  destruct r as [[]| |]; [|discriminate|congruence].
  generalize (labelled (computeScores s)). intros l.
  induction l as [|[label score] l IH]; simpl; [discriminate|].
  destruct (createBar score); [|discriminate].
  destruct (logLines l). exact IH.
Qed.

(** C3: per-feature fault isolation.  In a frame whose vector and
    spectrum could be built, every try block completes: a series whose
    computation throws receives nothing, every series whose computation
    returns receives its value, whatever the other computations do; and the
    frame loop and the collection run to completion over all the frame
    offsets. *)
Theorem fault_isolation (E : Essentia) (audio : list num) (sampleRate : num) :
  (forall (i : Z) (s : Store) (fv sp : Vec E),
     prepare E audio i = Some (fv, sp) ->
     exists s' : Store,
       frameBody E audio sampleRate i s = (s', Ok tt) /\
       forall f : series,
         (attempt E audio sampleRate i fv sp f = None -> s' f = s f) /\
         (forall v : num,
            attempt E audio sampleRate i fv sp f = Some v ->
            s' f = s f ++ [v])) /\
  (forallb (prepared E audio) (frameOffsets (length_ audio)) = true ->
   exists s' : Store,
     collect E audio sampleRate (Z.to_nat (length_ audio)) emptyStore
       = (s', Ok tt) /\
     forall f : series,
       f <> dynamicComplexities ->
       s' f =
       flat_map (collected E audio sampleRate f) (frameOffsets (length_ audio))).
Proof.
  split.
  - intros i s fv sp P. exists (afterFrame E audio sampleRate i fv sp s).
    split; [now apply frameBody_prepared|].
    intros f. rewrite afterFrame_get. split.
    + intros ->. apply app_nil_r.
    + now intros v ->.
  - intros H. destruct (collect_completes E audio sampleRate H) as (s' & C).
    exists s'. split; [exact C|]. intros f Hf.
    rewrite (collect_store E audio sampleRate _ _ _ C f Hf).
    rewrite <- frameOffsets_offsetsFrom. now rewrite processed_all.
Qed.

Lemma fault_isolation_witness :
  exists s' : Store,
    collect toyEssentia (toyAudio 10000) (Fin 44100)
      (Z.to_nat (length_ (toyAudio 10000))) emptyStore = (s', Ok tt) /\
    s' pitchSaliences = [] /\
    s' hfcValues = [Fin 5000; Fin 5000; Fin 5000].
Proof.
  destruct (proj2 (fault_isolation toyEssentia (toyAudio 10000) (Fin 44100)))
    as (s' & C & Hs').
  - vm_compute. reflexivity.
  - exists s'. split; [exact C|]. split.
    + rewrite Hs' by discriminate. vm_compute. reflexivity.
    + rewrite Hs' by discriminate. vm_compute. reflexivity.
Defined.

(** ** Flux *)

Lemma collected_flux (E : Essentia) (audio : list num) (sampleRate : num)
  (i : Z) :
  collected E audio sampleRate spectralFluxes i = fluxValues E audio i.
Proof.
  unfold collected, fluxValues, attempt, fluxAt.
  change (spectrumAt E audio i) with (option_map snd (prepare E audio i)).
  destruct (prepare E audio i) as [[fv sp]|]; cbn [option_map snd];
    destruct (i >? 0)%Z; try reflexivity;
    now destruct (spectrumAt E audio (i - hopSize)).
Qed.

Lemma fluxValues_length (E : Essentia) (audio : list num) (l : list Z) :
  (List.length (flat_map (fluxValues E audio) l)
   <= List.length (filter (fun i => (i >? 0)%Z) l))%nat.
Proof.
  induction l as [|i l IH]; simpl; [lia|].
  rewrite length_app. unfold fluxValues at 1.
  destruct (i >? 0)%Z; simpl; [|lia].
  destruct (spectrumAt E audio (i - hopSize)); simpl; [|lia].
  destruct (spectrumAt E audio i); simpl; [|lia].
  destruct (Flux E _ _); simpl; lia.
Qed.

Lemma processed_length (E : Essentia) (audio : list num) (l : list Z) :
  (List.length (processed E audio l) <= List.length l)%nat.
Proof.
  destruct (processed_prefix E audio l) as [rest H].
  rewrite H at 2. rewrite length_app. lia.
Qed.

Lemma filter_length_le {A} (p : A -> bool) (l : list A) :
  (List.length (filter p l) <= List.length l)%nat.
Proof.
  induction l as [|x l IH]; simpl; [lia|]. destruct (p x); simpl; lia.
Qed.

Lemma frameOffsets_head (len : Z) :
  frameOffsets len = [] \/ exists t, frameOffsets len = 0%Z :: t.
Proof.
  rewrite frameOffsets_offsetsFrom.
  destruct (Z.to_nat len); simpl; destruct (0 <? len - frameSize)%Z; eauto.
Qed.

(** C8, as stated, fails on a run without frames: for a buffer of 100
    samples the run completes, no frame is visited, the flux series is empty,
    and its length 0 is not at most the frame count minus 1, which is -1. *)
Lemma flux_bound_without_frames :
  let run :=
    collect toyEssentia (toyAudio 100) (Fin 44100)
      (Z.to_nat (length_ (toyAudio 100))) emptyStore in
  snd run = Ok tt /\
  frameOffsets (length_ (toyAudio 100)) = [] /\
  fst run spectralFluxes = [] /\
  ~ (Z.of_nat (List.length (fst run spectralFluxes))
     <= Z.of_nat (List.length (frameOffsets (length_ (toyAudio 100)))) - 1)%Z.
Proof.
  vm_compute. repeat split; try reflexivity. intros H. now apply H.
Qed.

(** C8 (amended): the first frame offset never contributes a flux value.
    At the end of every run (completed or aborted) the flux series holds,
    for the frames processed at an offset i > 0 and in order, the flux
    between the spectrum of the frame at i - H, recomputed from the samples,
    and the spectrum of the frame at i; so it has at most one value per
    frame offset i > 0: at most (frame count - 1) values when there is at
    least one frame, and none when there is no frame. *)
Theorem flux_skips_first_frame (E : Essentia) (audio : list num)
  (sampleRate : num) (s' : Store) (r : result unit) :
  collect E audio sampleRate (Z.to_nat (length_ audio)) emptyStore = (s', r) ->
  let visited := processed E audio (frameOffsets (length_ audio)) in
  fluxValues E audio 0 = [] /\
  s' spectralFluxes = flat_map (fluxValues E audio) visited /\
  (List.length (s' spectralFluxes)
   <= List.length (filter (fun i => (i >? 0)%Z) visited))%nat /\
  (List.length (s' spectralFluxes)
   <= List.length (frameOffsets (length_ audio)) - 1)%nat /\
  (frameOffsets (length_ audio) <> [] ->
   (Z.of_nat (List.length (s' spectralFluxes))
    <= Z.of_nat (List.length (frameOffsets (length_ audio))) - 1)%Z) /\
  (frameOffsets (length_ audio) = [] -> s' spectralFluxes = []).
Proof.
  intros C visited.
  assert (Hs : s' spectralFluxes = flat_map (fluxValues E audio) visited).
  { rewrite (collect_store E audio sampleRate _ _ _ C) by discriminate.
    rewrite <- frameOffsets_offsetsFrom. fold visited.
    apply flat_map_ext. intros i. apply collected_flux. }
  split; [reflexivity|]. split; [exact Hs|].
  pose proof (fluxValues_length E audio visited) as Hlen.
  rewrite <- Hs in Hlen. split; [exact Hlen|].
  pose proof (processed_length E audio (frameOffsets (length_ audio))) as Hp.
  fold visited in Hp.
  assert (Hf : (List.length (filter (fun i => (i >? 0)%Z) visited)
                <= List.length visited - 1)%nat).
  { subst visited.
    destruct (frameOffsets_head (length_ audio)) as [->|[t ->]];
      [simpl; lia|].
    cbn [processed]. destruct (prepared E audio 0); [|simpl; lia].
    cbn [filter Z.gtb Z.compare List.length].
    pose proof (filter_length_le (fun i => (i >? 0)%Z) (processed E audio t)).
    lia. }
  assert (Hnat : (List.length (s' spectralFluxes)
                  <= List.length (frameOffsets (length_ audio)) - 1)%nat)
    by lia.
  split; [exact Hnat|]. split.
  - intros Hne.
    assert (List.length (frameOffsets (length_ audio)) <> 0%nat)
      by (destruct (frameOffsets (length_ audio)); [congruence|discriminate]).
    lia.
  - intros Hnil. rewrite Hs. subst visited. now rewrite Hnil.
Qed.

Lemma flux_skips_first_frame_witness :
  exists s' : Store,
    fst (collect toyEssentia (toyAudio 10000) (Fin 44100)
           (Z.to_nat (length_ (toyAudio 10000))) emptyStore) = s' /\
    s' spectralFluxes = [Fin 0.05; Fin 0.05] /\
    (List.length (s' spectralFluxes)
     <= List.length (frameOffsets (length_ (toyAudio 10000))) - 1)%nat.
Proof.
  destruct (collect toyEssentia (toyAudio 10000) (Fin 44100)
              (Z.to_nat (length_ (toyAudio 10000))) emptyStore)
    as [s' r] eqn:C.
  exists s'. split; [reflexivity|].
  destruct (flux_skips_first_frame _ _ _ _ _ C) as (_ & Hs & _ & Hl & _).
  split; [|exact Hl].
  rewrite Hs. vm_compute. reflexivity.
Defined.

(** ** Band energies *)

Lemma band_energies_of_processed (E : Essentia) (audio : list num)
  (sampleRate : num) (l : list Z) :
  exists spectra : list (Vec E),
    Forall2 (fun i sp => spectrumAt E audio i = Some sp)
      (processed E audio l) spectra /\
    flat_map (collected E audio sampleRate lowFreqEnergies)
      (processed E audio l)
      = map (fun sp => lowEnergy (Array_from E sp)) spectra /\
    flat_map (collected E audio sampleRate highFreqEnergies)
      (processed E audio l)
      = map (fun sp => highEnergy (Array_from E sp)) spectra.
Proof.
  induction l as [|i l (spectra & HF & Hlo & Hhi)]; cbn [processed].
  - exists []. repeat split; constructor.
  - unfold prepared. destruct (prepare E audio i) as [[fv sp]|] eqn:P.
    + exists (sp :: spectra). split; [|split].
      * constructor; [|exact HF]. unfold spectrumAt. now rewrite P.
      * cbn [flat_map map]. rewrite Hlo. unfold collected at 1. now rewrite P.
      * cbn [flat_map map]. rewrite Hhi. unfold collected at 1. now rewrite P.
    + exists []. repeat split; constructor.
Qed.

(** C10: the low-band and the high-band series grow in lockstep.  After
    any number of iterations of the frame loop (any fuel), the two series
    have the same length and their entries at each position are the low and
    the high band energy of the spectrum of one and the same processed
    frame. *)
Theorem band_energies_lockstep (E : Essentia) (audio : list num)
  (sampleRate : num) (fuel : nat) (s' : Store) (r : result unit) :
  forLoop fuel (length_ audio - frameSize) hopSize
    (frameBody E audio sampleRate) 0 emptyStore = (s', r) ->
  List.length (s' lowFreqEnergies) = List.length (s' highFreqEnergies) /\
  exists spectra : list (Vec E),
    Forall2 (fun i sp => spectrumAt E audio i = Some sp)
      (processed E audio
         (offsetsFrom fuel (length_ audio - frameSize) hopSize 0))
      spectra /\
    s' lowFreqEnergies = map (fun sp => lowEnergy (Array_from E sp)) spectra /\
    s' highFreqEnergies = map (fun sp => highEnergy (Array_from E sp)) spectra.
Proof.
  intros L.
  pose proof (frameLoop_store E audio sampleRate fuel s' r L) as Hs.
  destruct (band_energies_of_processed E audio sampleRate
              (offsetsFrom fuel (length_ audio - frameSize) hopSize 0))
    as (spectra & HF & Hlo & Hhi).
  rewrite (Hs lowFreqEnergies), (Hs highFreqEnergies), Hlo, Hhi.
  split; [now rewrite !length_map|].
  exists spectra. now repeat split.
Qed.

Lemma band_energies_lockstep_witness :
  exists s' : Store,
    fst (forLoop 2 (length_ (toyAudio 10000) - frameSize) hopSize
           (frameBody toyEssentia (toyAudio 10000) (Fin 44100)) 0 emptyStore)
      = s' /\
    List.length (s' lowFreqEnergies) = List.length (s' highFreqEnergies).
Proof.
  destruct (forLoop 2 (length_ (toyAudio 10000) - frameSize) hopSize
              (frameBody toyEssentia (toyAudio 10000) (Fin 44100)) 0
              emptyStore) as [s' r] eqn:L.
  exists s'. split; [reflexivity|].
  exact (proj1 (band_energies_lockstep _ _ _ _ _ _ L)).
Defined.

Lemma rel_index_ofZ (len z : Z) :
  (0 <= z <= len)%Z -> rel_index len (ofZ z) = z.
Proof.
  intros H. unfold rel_index, ofZ. rewrite trunc_inject_Z.
  destruct (Z.ltb_spec z 0); lia.
Qed.

Lemma length_nonneg {A} (l : list A) : (0 <= length_ l)%Z.
Proof. unfold length_. lia. Qed.

Lemma slice_prefix {A} (l : list A) (k : Z) :
  (0 <= k <= length_ l)%Z -> slice l (Fin 0) (ofZ k) = firstn (Z.to_nat k) l.
Proof.
  intros H. unfold slice. rewrite (rel_index_ofZ _ k H).
  change (Fin 0) with (ofZ 0). rewrite rel_index_ofZ by lia.
  now rewrite Z.sub_0_r.
Qed.

Lemma slice_suffix {A} (l : list A) (k : Z) :
  (0 <= k <= length_ l)%Z -> slice_from l (ofZ k) = skipn (Z.to_nat k) l.
Proof.
  intros H. unfold slice_from, slice. rewrite (rel_index_ofZ _ k H).
  rewrite rel_index_ofZ by lia.
  apply firstn_all2. rewrite length_skipn. unfold length_ in *. lia.
Qed.

Lemma splitPoint_ofZ (l : list num) : splitPoint l = ofZ (length_ l / 10).
Proof.
  unfold splitPoint.
  replace (length_ l / 10)%Z with (length_ l * 1 / 10)%Z
    by now rewrite Z.mul_1_r.
  reflexivity.
Qed.

Lemma split_in_range (l : list num) : (0 <= length_ l / 10 <= length_ l)%Z.
Proof.
  pose proof (length_nonneg l). split; [apply Z.div_pos; lia|].
  apply Z.div_le_upper_bound; lia.
Qed.

Lemma Forall_firstn_skipn {A} (P : A -> Prop) (n : nat) (l : list A) :
  Forall P l -> Forall P (firstn n l) /\ Forall P (skipn n l).
Proof.
  intros H. rewrite <- (firstn_skipn n l) in H. now apply Forall_app in H.
Qed.

Lemma sumSquares_finite (l : list num) (acc : Q) :
  Forall finite l ->
  exists t : Q,
    reduce (fun a b => a + b * b)%num (Fin acc) l = Fin t /\
    t == acc + Qtotal (map (fun x => val x * val x) l).
Proof.
  unfold reduce. intros H. revert acc.
  induction H as [|x l Hx _ IH]; intros acc; simpl.
  - exists acc. split; [reflexivity|ring].
  - destruct x as [a| | |]; try contradiction. cbn [mul add].
    destruct (IH (acc + a * a)) as (t & Ht & Et).
    exists t. split; [exact Ht|]. rewrite Et. simpl. ring.
Qed.

Lemma meanSquare_of (l : list num) :
  Forall finite l ->
  (l <> [] ->
   (sumSquares l / ofZ (length_ l))%num =n= Fin (meanSquare l)) /\
  (l = [] -> (sumSquares l / ofZ (length_ l))%num = NaN).
Proof.
  intros H. split.
  - intros Hne. unfold sumSquares.
    destruct (sumSquares_finite l 0 H) as (t & -> & Et).
    unfold ofZ. rewrite div_Fin
      by now apply inject_Z_nonzero, length_pos_nonempty.
    cbn [num_eq]. unfold meanSquare. rewrite Et. now rewrite Qplus_0_l.
  - intros ->. reflexivity.
Qed.

(** C6, as stated, fails: for a spectrum of five bins the low slice is
    empty, yet the block does not fail: it appends NaN to the low-band
    series and the mean square of all five bins to the high-band series. *)
Lemma band_energy_empty_slice_pushes_NaN :
  let s' := fst (frameBody fiveBinEssentia (toyAudio 5000) (Fin 44100) 0
                   emptyStore) in
  slice (toyAudio 5) (Fin 0) (splitPoint (toyAudio 5)) = [] /\
  s' lowFreqEnergies = [NaN] /\
  exists h : num, s' highFreqEnergies = [h] /\ h =n= Fin 1.
Proof.
  vm_compute. split; [reflexivity|]. split; [reflexivity|].
  eexists. split; reflexivity.
Qed.

(** C6 (amended): for every frame spectrum the block splits the spectrum
    array at index floor(0.1 * length) and always appends one value to each
    of the two series: the mean squared value of [0, split) to the low-band
    series and that of [split, end) to the high-band series; a sub-slice
    that is empty does not make the block fail, its value is NaN (0/0). *)
Theorem band_energy_block (E : Essentia) (audio : list num) (sampleRate : num)
  (i : Z) (s : Store) (fv sp : Vec E) :
  prepare E audio i = Some (fv, sp) ->
  let spectrumArray := Array_from E sp in
  let split := Z.to_nat (Qfloor (0.1 * inject_Z (length_ spectrumArray))) in
  let lowFreqs := firstn split spectrumArray in
  let highFreqs := skipn split spectrumArray in
  exists (s' : Store) (lowValue highValue : num),
    frameBody E audio sampleRate i s = (s', Ok tt) /\
    s' lowFreqEnergies = s lowFreqEnergies ++ [lowValue] /\
    s' highFreqEnergies = s highFreqEnergies ++ [highValue] /\
    (Forall finite spectrumArray ->
     (lowFreqs <> [] -> lowValue =n= Fin (meanSquare lowFreqs)) /\
     (lowFreqs = [] -> lowValue = NaN) /\
     (highFreqs <> [] -> highValue =n= Fin (meanSquare highFreqs)) /\
     (highFreqs = [] -> highValue = NaN)).
Proof.
  intros P arr split lowFreqs highFreqs.
  exists (afterFrame E audio sampleRate i fv sp s),
    (lowEnergy arr), (highEnergy arr).
  split; [now apply frameBody_prepared|].
  rewrite !afterFrame_get. split; [reflexivity|]. split; [reflexivity|].
  intros Hfin.
  assert (Hsplit : split = Z.to_nat (length_ arr / 10)).
  { unfold split. f_equal. unfold Qfloor, Qmult, inject_Z. cbn [Qnum Qden].
    now rewrite Z.mul_1_l. }
  pose proof (split_in_range arr) as Hr.
  assert (Hlow : slice arr (Fin 0) (splitPoint arr) = lowFreqs).
  { rewrite splitPoint_ofZ, slice_prefix by assumption.
    unfold lowFreqs. now rewrite Hsplit. }
  assert (Hhigh : slice_from arr (splitPoint arr) = highFreqs).
  { rewrite splitPoint_ofZ, slice_suffix by assumption.
    unfold highFreqs. now rewrite Hsplit. }
  unfold lowEnergy, highEnergy. cbv zeta. rewrite Hlow, Hhigh.
  destruct (Forall_firstn_skipn finite split arr Hfin) as [Hl Hh].
  destruct (meanSquare_of lowFreqs Hl), (meanSquare_of highFreqs Hh).
  repeat split; assumption.
Qed.

Lemma band_energy_block_witness :
  exists (s' : Store) (lowValue highValue : num),
    frameBody toyEssentia (toyAudio 5000) (Fin 44100) 0 emptyStore
      = (s', Ok tt) /\
    s' lowFreqEnergies = [lowValue] /\
    s' highFreqEnergies = [highValue] /\
    lowValue =n= Fin (meanSquare (firstn 2 (toyAudio 20))) /\
    highValue =n= Fin (meanSquare (skipn 2 (toyAudio 20))).
Proof.
  destruct (band_energy_block toyEssentia (toyAudio 5000) (Fin 44100) 0
              emptyStore (toyAudio 4096) (toyAudio 20))
    as (s' & lo & hi & B & Hlo & Hhi & Hv).
  - vm_compute. reflexivity.
  - exists s', lo, hi. split; [exact B|]. split; [exact Hlo|].
    split; [exact Hhi|].
    destruct Hv as (H1 & _ & H2 & _).
    + vm_compute. repeat constructor.
    + split.
      * apply H1. vm_compute. discriminate.
      * apply H2. vm_compute. discriminate.
Defined.

(** ** The scores stay within [0,100] *)

Lemma nonneg_finite (l : list num) : Forall nonneg l -> Forall finite l.
Proof.
  apply Forall_impl. intros x. now destruct x.
Qed.

Lemma nonneg_val (l : list num) :
  Forall nonneg l -> Forall (fun x => 0 <= val x) l.
Proof.
  apply Forall_impl. intros x. destruct x; simpl; (easy || contradiction).
Qed.

Lemma mean_nonneg (l : list num) :
  Forall nonneg l ->
  exists m : Q, mean (calculateStats l) = Fin m /\ 0 <= m.
Proof.
  intros H. exists (meanQ l).
  split; [now apply calculateStats_mean, nonneg_finite|].
  rewrite meanQ_summaryMean. destruct l as [|x l]; [apply Qle_refl|].
  unfold summaryMean, arithmeticMean.
  apply Qle_shift_div_l.
  - apply inject_Z_pos, length_pos_nonempty. congruence.
  - apply Qtotal_lower. now apply nonneg_val.
Qed.

Lemma percentile90_nonneg (l : list num) :
  Forall nonneg l ->
  exists p : Q, percentile90 (calculateStats l) = Some (Fin p) /\ 0 <= p.
Proof.
  intros H. destruct l as [|x0 l0] eqn:El.
  - exists 0. split; [reflexivity|apply Qle_refl].
  - rewrite <- El in *.
    assert (Hne : l <> []) by (rewrite El; congruence).
    rewrite calculateStats_percentile90 by assumption.
    pose proof (length_pos_nonempty l Hne) as Hlen.
    destruct (nth_error (sort sub l) (Z.to_nat (length_ l * 9 / 10)))
      as [x|] eqn:E.
    + apply nth_error_In in E.
      apply (Permutation_in _ (sort_perm sub l)) in E.
      rewrite Forall_forall in H. specialize (H x E).
      destruct x as [p| | |]; try contradiction. now exists p.
    + exfalso. apply nth_error_None in E.
      pose proof (length_sort sub l) as HL. unfold length_ in HL.
      assert (length_ l * 9 / 10 < length_ l)%Z
        by (apply Z.div_lt_upper_bound; lia).
      unfold length_ in *. lia.
Qed.

Lemma silenceRatioOf_mean (l : list num) :
  silenceRatioOf l = mean (calculateStats l).
Proof.
  destruct l as [|x l]; [reflexivity|].
  unfold silenceRatioOf, calculateStats.
  assert (H : (0 < length_ (x :: l))%Z)
    by (apply length_pos_nonempty; congruence).
  destruct (Z.gtb_spec (length_ (x :: l)) 0); [|lia].
  destruct (Z.eqb_spec (length_ (x :: l)) 0); [lia|reflexivity].
Qed.

Lemma normalizedDynamic_range (l : list num) :
  Forall nonneg l -> in_0_100 (normalizedDynamicOf l).
Proof.
  intros H. unfold normalizedDynamicOf.
  destruct l as [|x l].
  - simpl. split; discriminate.
  - assert (Hl : (0 < length_ (x :: l))%Z)
      by (apply length_pos_nonempty; congruence).
    destruct (Z.gtb_spec (length_ (x :: l)) 0); [|lia].
    inversion H as [|? ? Hx _]; subst.
    destruct x as [a| | |]; try contradiction.
    change (index (Fin a :: l) (Fin 0)) with (Some (Fin a)).
    cbn [toNumber mul]. rewrite Math_min_Fin. cbn [in_0_100].
    simpl in Hx. split_minmax; lra.
Qed.

(** Division by a constant, as a product. *)
Ltac const_div :=
  unfold Qdiv in *;
  repeat match goal with
    | |- context [Qinv ?b] =>
        let v := eval vm_compute in (Qinv b) in change (Qinv b) with v in *
    end.

Ltac score_bounds :=
  rewrite ?div_Fin by discriminate; cbn [mul add sub neg];
  rewrite ?Math_min_Fin, ?Math_max_Fin; cbn [mul add sub neg];
  rewrite ?Math_min_Fin, ?Math_max_Fin; cbn [mul add sub neg in_0_100];
  split_minmax; const_div; lra.

Lemma aggressiveness_range (h c x d f nd : Q) :
  0 <= h -> 0 <= c -> 0 <= x -> 0 <= d -> 0 <= f -> 0 <= nd <= 100 ->
  in_0_100 (aggressivenessOf (Fin h) (Fin c) (Fin x) (Fin d) (Fin f) (Fin nd)).
Proof. intros. unfold aggressivenessOf. score_bounds. Qed.

Lemma tonality_range (a b c : Q) :
  0 <= a -> 0 <= b -> 0 <= c ->
  in_0_100 (tonalityOf (Fin a) (Fin b) (Fin c)).
Proof. intros. unfold tonalityOf. score_bounds. Qed.

Lemma softness_range (r l z p : Q) :
  0 <= r -> 0 <= l -> 0 <= z -> 0 <= p ->
  in_0_100 (softnessOf (Fin r) (Fin l) (Fin z) (Some (Fin p))).
Proof. intros. unfold softnessOf. cbn [toNumber]. score_bounds. Qed.

Lemma density_range (f p r x : Q) :
  0 <= f -> 0 <= p -> 0 <= r -> 0 <= x ->
  in_0_100 (densityOf (Fin f) (Fin p) (Fin r) (Fin x)).
Proof. intros. unfold densityOf. score_bounds. Qed.

Lemma highLowBalance_range (lo hi : Q) :
  in_0_100 (highLowBalanceOf (Fin lo) (Fin hi)).
Proof.
  unfold highLowBalanceOf. cbn [add].
  destruct (gtb (Fin (lo + hi)) (Fin 0)) eqn:G.
  - apply gtb_Fin_0 in G. rewrite div_Fin.
    + cbn [mul]. rewrite Math_max_Fin, Math_min_Fin. cbn [in_0_100].
      generalize (hi / (lo + hi) * 100). intros t.
      split_minmax; lra.
    + intros E. rewrite E in G. now apply Qlt_irrefl in G.
  - simpl. split; discriminate.
Qed.

(** C1: when every collected series holds only finite, non-negative
    values (in particular values within the normalization scales), each of
    the five scores lies in [0,100]. *)
Theorem scores_within_0_100 (s : Store) :
  (forall f : series, Forall nonneg (s f)) ->
  in_0_100 (aggressivenessScore (computeScores s)) /\
  in_0_100 (tonalityScore (computeScores s)) /\
  in_0_100 (softnessScore (computeScores s)) /\
  in_0_100 (highLowBalance (computeScores s)) /\
  in_0_100 (densityScore (computeScores s)).
Proof.
  intros H. unfold computeScores.
  cbn [aggressivenessScore tonalityScore softnessScore highLowBalance
       densityScore].
  rewrite silenceRatioOf_mean.
  pose proof (normalizedDynamic_range _ (H dynamicComplexities)) as Hd.
  destruct (normalizedDynamicOf (s dynamicComplexities)) as [nd| | |];
    try contradiction.
  destruct (percentile90_nonneg _ (H loudnesses)) as (p90 & -> & Hp).
  repeat match goal with
    | |- context [mean (calculateStats (s ?f))] =>
        let m := fresh "m" in let Hm := fresh "Hm" in
        destruct (mean_nonneg _ (H f)) as (m & -> & Hm)
    end.
  split; [now apply aggressiveness_range|].
  split; [now apply tonality_range|].
  split; [now apply softness_range|].
  split; [apply highLowBalance_range|].
  now apply density_range.
Qed.

Lemma scores_within_0_100_witness :
  in_0_100 (aggressivenessScore (computeScores sampleStore)) /\
  in_0_100 (tonalityScore (computeScores sampleStore)) /\
  in_0_100 (softnessScore (computeScores sampleStore)) /\
  in_0_100 (highLowBalance (computeScores sampleStore)) /\
  in_0_100 (densityScore (computeScores sampleStore)).
Proof.
  apply (scores_within_0_100 sampleStore).
  intros f. destruct f; repeat constructor; discriminate.
Defined.


(** * Further properties of the program *)

(** ** Frames *)

Lemma slice_range {A} (l : list A) (a b : Z) :
  (0 <= a <= b)%Z -> (b <= length_ l)%Z ->
  slice l (ofZ a) (ofZ b) = firstn (Z.to_nat (b - a)) (skipn (Z.to_nat a) l).
Proof.
  intros Hab Hb. unfold slice. now rewrite !rel_index_ofZ by lia.
Qed.

Lemma length_slice_range {A} (l : list A) (a b : Z) :
  (0 <= a <= b)%Z -> (b <= length_ l)%Z ->
  length_ (slice l (ofZ a) (ofZ b)) = (b - a)%Z.
Proof.
  intros Hab Hb. rewrite slice_range by assumption.
  unfold length_ in *. rewrite length_firstn, length_skipn. lia.
Qed.

Lemma frameOffsets_In (len i : Z) :
  In i (frameOffsets len) <->
  exists k : Z, (0 <= k)%Z /\ i = (k * hopSize)%Z /\ (i < len - frameSize)%Z.
Proof.
  rewrite frameOffsets_offsetsFrom.
  rewrite offsetsFrom_In; [reflexivity|reflexivity|unfold frameSize; lia].
Qed.

(** X1: Every frame handed to essentia is a full frame: the slice taken at a
    visited offset has exactly 4096 samples, and so has the slice of the
    previous frame taken again for the flux. *)
Theorem frames_full_length (audio : list num) (i : Z) :
  In i (frameOffsets (length_ audio)) ->
  length_ (slice audio (ofZ i) (ofZ (i + frameSize))) = frameSize /\
  ((i >? 0)%Z = true ->
   length_ (slice audio (ofZ (i - hopSize)) (ofZ (i - hopSize + frameSize)))
     = frameSize).
Proof.
  intros H. apply frameOffsets_In in H. destruct H as (k & Hk & Hi & Hlt).
  unfold hopSize, frameSize in *. split.
  - rewrite length_slice_range by lia. lia.
  - intros Hpos. apply Z.gtb_lt in Hpos.
    rewrite length_slice_range by lia. lia.
Qed.

Lemma frames_full_length_witness :
  length_ (slice (toyAudio 10000) (ofZ 2048) (ofZ (2048 + frameSize)))
    = frameSize /\
  length_ (slice (toyAudio 10000) (ofZ (2048 - hopSize))
             (ofZ (2048 - hopSize + frameSize))) = frameSize.
Proof.
  destruct (frames_full_length (toyAudio 10000) 2048) as [H1 H2].
  - vm_compute. right. now left.
  - split; [exact H1|]. apply H2. reflexivity.
Defined.

(** X2: Consecutive frames overlap by half: the first 2048 samples of the
    frame at offset i + 2048 are the last 2048 samples of the frame at
    offset i. *)
Theorem frames_overlap_by_half (audio : list num) (i : Z) :
  In i (frameOffsets (length_ audio)) ->
  In (i + hopSize)%Z (frameOffsets (length_ audio)) ->
  firstn (Z.to_nat hopSize)
    (slice audio (ofZ (i + hopSize)) (ofZ (i + hopSize + frameSize)))
  = skipn (Z.to_nat hopSize) (slice audio (ofZ i) (ofZ (i + frameSize))).
Proof.
  intros H1 H2. apply frameOffsets_In in H1, H2.
  destruct H1 as (k & Hk & Hi & Hlt). destruct H2 as (k' & Hk' & Hi' & Hlt').
  unfold hopSize, frameSize in *.
  rewrite !slice_range by lia.
  rewrite firstn_firstn, skipn_firstn_comm, skipn_skipn.
  f_equal; [lia|]. f_equal. lia.
Qed.

Lemma frames_overlap_by_half_witness :
  firstn (Z.to_nat hopSize)
    (slice (map ofZ [1; 2; 3]%Z ++ toyAudio 9997)
       (ofZ (0 + hopSize)) (ofZ (0 + hopSize + frameSize)))
  = skipn (Z.to_nat hopSize)
      (slice (map ofZ [1; 2; 3]%Z ++ toyAudio 9997)
         (ofZ 0) (ofZ (0 + frameSize))).
Proof.
  apply (frames_overlap_by_half (map ofZ [1; 2; 3]%Z ++ toyAudio 9997) 0).
  - vm_compute. now left.
  - vm_compute. right. now left.
Defined.

Lemma frameOffsets_progression (len : Z) :
  frameOffsets len =
  map (fun k => (Z.of_nat k * hopSize)%Z)
    (seq 0 (List.length (frameOffsets len))).
Proof.
  rewrite frameOffsets_offsetsFrom.
  rewrite offsetsFrom_progression at 1. reflexivity.
Qed.

Lemma frameOffsets_nth (len : Z) (k : nat) :
  (k < List.length (frameOffsets len))%nat <->
  (Z.of_nat k * hopSize < len - frameSize)%Z.
Proof.
  split.
  - intros Hk.
    assert (Hin : In (Z.of_nat k * hopSize)%Z (frameOffsets len)).
    { rewrite frameOffsets_progression. apply in_map_iff.
      exists k. split; [reflexivity|]. apply in_seq. lia. }
    apply frameOffsets_In in Hin. destruct Hin as (_ & _ & _ & H). exact H.
  - intros Hk.
    assert (Hin : In (Z.of_nat k * hopSize)%Z (frameOffsets len)).
    { apply frameOffsets_In. exists (Z.of_nat k). lia. }
    rewrite frameOffsets_progression in Hin. apply in_map_iff in Hin.
    destruct Hin as (k' & Hk' & Hs). apply in_seq in Hs.
    unfold hopSize in Hk'. lia.
Qed.

(** X3: The number of frames of a buffer of [len] samples is
    ceil((len - 4096) / 2048), and 0 when len <= 4096. *)
Theorem frame_count (len : Z) :
  Z.of_nat (List.length (frameOffsets len)) =
  Z.max 0 ((len - frameSize + hopSize - 1) / hopSize).
Proof.
  pose proof (frameOffsets_nth len) as H.
  destruct (List.length (frameOffsets len)) as [|m].
  - assert (H0 : ~ (Z.of_nat 0 * hopSize < len - frameSize)%Z).
    { intros C. apply H in C. lia. }
    unfold hopSize, frameSize in *.
    assert ((len - 4096 + 2048 - 1) / 2048 <= 0)%Z; [|lia].
    apply Z.lt_succ_r, Z.div_lt_upper_bound; lia.
  - assert (H1 : (Z.of_nat m * hopSize < len - frameSize)%Z)
      by (apply H; lia).
    assert (H2 : ~ (Z.of_nat (S m) * hopSize < len - frameSize)%Z).
    { intros C. apply H in C. lia. }
    unfold hopSize, frameSize in *.
    assert ((len - 4096 + 2048 - 1) / 2048 = Z.of_nat (S m))%Z; [|lia].
    symmetry. apply (Z.div_unique _ _ _ (len - 4096 + 2048 - 1
                                         - 2048 * Z.of_nat (S m))); lia.
Qed.

(** X4: What the frames cover.  For a buffer longer than one frame the frames
    cover, without gap, the samples of index 0 up to some end index that is
    at least len - 2048 and at most len - 1: between 1 and 2048 trailing
    samples, the last sample among them, belong to no frame. *)
Theorem frames_cover (len : Z) :
  (frameSize < len)%Z ->
  exists covered : Z,
    (len - hopSize <= covered <= len - 1)%Z /\
    forall j : Z,
      (exists i : Z, In i (frameOffsets len) /\ (i <= j < i + frameSize)%Z) <->
      (0 <= j < covered)%Z.
Proof.
  intros Hlen. pose proof (frameOffsets_nth len) as H.
  destruct (List.length (frameOffsets len)) as [|m] eqn:En.
  - exfalso. assert (C : (0 < 0)%nat); [|lia].
    apply H. unfold hopSize. lia.
  - assert (H1 : (Z.of_nat m * hopSize < len - frameSize)%Z)
      by (apply H; lia).
    assert (H2 : ~ (Z.of_nat (S m) * hopSize < len - frameSize)%Z).
    { intros C. apply H in C. lia. }
    exists (Z.of_nat m * hopSize + frameSize)%Z.
    unfold hopSize, frameSize in *. split; [lia|].
    intros j. split.
    + intros (i & Hi & Hj). apply frameOffsets_In in Hi.
      destruct Hi as (k & Hk & -> & Hlt). unfold hopSize, frameSize in *.
      assert (Hkm : (Z.to_nat k < S m)%nat).
      { apply H. rewrite Z2Nat.id by lia. lia. }
      nia.
    + intros Hj.
      exists (Z.min (j / 2048) (Z.of_nat m) * 2048)%Z. split.
      * apply frameOffsets_In.
        exists (Z.min (j / 2048) (Z.of_nat m)). unfold hopSize, frameSize.
        assert (0 <= j / 2048)%Z by (apply Z.div_pos; lia).
        split; [lia|]. split; [reflexivity|]. nia.
      * pose proof (Z.div_mod j 2048 ltac:(lia)) as Hd.
        pose proof (Z.mod_pos_bound j 2048 ltac:(lia)) as Hm.
        destruct (Z.min_spec (j / 2048) (Z.of_nat m)) as [[Hc ->]|[Hc ->]];
          lia.
Qed.

Lemma frames_cover_witness :
  exists covered : Z,
    (10000 - hopSize <= covered <= 10000 - 1)%Z /\
    forall j : Z,
      (exists i : Z, In i (frameOffsets 10000) /\ (i <= j < i + frameSize)%Z)
      <-> (0 <= j < covered)%Z.
Proof.
  apply (frames_cover 10000). reflexivity.
Defined.

(** ** The collected series *)

Lemma option_list_length {A} (o : option A) :
  (List.length (option_list o) <= 1)%nat.
Proof. destruct o; simpl; lia. Qed.

Lemma collected_length (E : Essentia) (audio : list num) (sampleRate : num)
  (f : series) (l : list Z) :
  (List.length (flat_map (collected E audio sampleRate f) l)
   <= List.length l)%nat.
Proof.
  induction l as [|i l IH]; simpl; [lia|]. rewrite length_app.
  assert (List.length (collected E audio sampleRate f i) <= 1)%nat; [|lia].
  unfold collected. destruct (prepare E audio i) as [[fv sp]|]; simpl;
    [apply option_list_length|lia].
Qed.

Lemma collected_dynamic (E : Essentia) (audio : list num) (sampleRate : num)
  (l : list Z) :
  flat_map (collected E audio sampleRate dynamicComplexities) l = [].
Proof.
  induction l as [|i l IH]; simpl; [reflexivity|]. rewrite IH.
  unfold collected. now destruct (prepare E audio i) as [[fv sp]|].
Qed.

(** The dynamic-complexity array after [collect]. *)
Lemma collect_dynamic (E : Essentia) (audio : list num) (sampleRate : num)
  (fuel : nat) (s' : Store) (r : result unit) :
  collect E audio sampleRate fuel emptyStore = (s', r) ->
  s' dynamicComplexities =
  match r with
  | Ok _ => option_list (dynamicComplexityOf E audio)
  | _ => []
  end.
Proof.
  unfold collect. unfold bind at 1.
  destruct (forLoop fuel _ _ _ 0 emptyStore) as [s1 r1] eqn:L.
  pose proof (frameLoop_store E audio sampleRate fuel s1 r1 L
                dynamicComplexities) as Hs1.
  rewrite collected_dynamic in Hs1.
  destruct r1 as [[]| |]; intros H.
  - rewrite try_push2 in H. inversion H; subst.
    rewrite pushOpt_get, Hs1.
    destruct (series_eq_dec dynamicComplexities dynamicComplexities);
      [reflexivity|congruence].
  - now inversion H; subst.
  - now inversion H; subst.
Qed.

(** X5: The series are append-only and grow by at most one value per frame:
    a frame leaves every earlier entry in place and appends at most one
    value to each series; at the end of a run every per-frame series has at
    most as many entries as there are frames, and the dynamic-complexity
    series has at most one. *)
Theorem series_grow_by_one (E : Essentia) (audio : list num)
  (sampleRate : num) :
  (forall (i : Z) (s s' : Store) (r : result unit),
     frameBody E audio sampleRate i s = (s', r) ->
     forall f : series,
       exists added : list num,
         s' f = s f ++ added /\ (List.length added <= 1)%nat) /\
  (forall (s' : Store) (r : result unit),
     collect E audio sampleRate (Z.to_nat (length_ audio)) emptyStore
       = (s', r) ->
     (forall f : series,
        f <> dynamicComplexities ->
        (List.length (s' f) <= List.length (frameOffsets (length_ audio)))%nat)
     /\ (List.length (s' dynamicComplexities) <= 1)%nat).
Proof.
  split.
  - intros i s s' r H f.
    destruct (prepare E audio i) as [[fv sp]|] eqn:P.
    + rewrite (frameBody_prepared E audio sampleRate i fv sp s P) in H.
      inversion H; subst. rewrite afterFrame_get.
      eexists. split; [reflexivity|apply option_list_length].
    + rewrite (frameBody_unprepared E audio sampleRate i s P) in H.
      inversion H; subst. exists []. split; [now rewrite app_nil_r|simpl; lia].
  - intros s' r C. split.
    + intros f Hf. rewrite (collect_store E audio sampleRate _ _ _ C f Hf).
      rewrite <- frameOffsets_offsetsFrom.
      etransitivity; [apply collected_length|apply processed_length].
    + rewrite (collect_dynamic E audio sampleRate _ _ _ C).
      destruct r; simpl; try lia. apply option_list_length.
Qed.

Lemma series_grow_by_one_witness :
  (List.length
     (fst (collect toyEssentia (toyAudio 10000) (Fin 44100)
             (Z.to_nat (length_ (toyAudio 10000))) emptyStore) hfcValues)
   <= List.length (frameOffsets (length_ (toyAudio 10000))))%nat /\
  (List.length
     (fst (collect toyEssentia (toyAudio 10000) (Fin 44100)
             (Z.to_nat (length_ (toyAudio 10000))) emptyStore)
        dynamicComplexities) <= 1)%nat.
Proof.
  destruct (collect toyEssentia (toyAudio 10000) (Fin 44100)
              (Z.to_nat (length_ (toyAudio 10000))) emptyStore)
    as [s' r] eqn:C.
  destruct (proj2 (series_grow_by_one toyEssentia (toyAudio 10000)
                     (Fin 44100)) s' r C) as [H1 H2].
  split; [apply H1; discriminate|exact H2].
Defined.

(** ** Silence flags *)

Lemma collected_silence_flags (E : Essentia) (audio : list num)
  (sampleRate : num) (l : list Z) :
  Forall isFlag (flat_map (collected E audio sampleRate frameSilences) l).
Proof.
  induction l as [|i l IH]; simpl; [constructor|].
  apply Forall_app. split; [|exact IH].
  unfold collected. destruct (prepare E audio i) as [[fv sp]|]; [|constructor].
  unfold attempt. destruct (Energy E fv) as [e|]; simpl; [|constructor].
  constructor; [|constructor].
  destruct (ltb e (Fin 0.001)); [now right|now left].
Qed.

Lemma isFlag_bounds (l : list num) :
  Forall isFlag l ->
  Forall finite l /\ Forall (fun x => 0 <= val x) l /\
  Forall (fun x => val x <= 1) l.
Proof.
  induction 1 as [|x l [->| ->] _ (IH1 & IH2 & IH3)].
  - repeat split; constructor.
  - repeat split; constructor; simpl; (easy || assumption || discriminate).
  - repeat split; constructor; simpl; (easy || assumption || discriminate).
Qed.

(** X6: Whatever [Energy] returns, the silence series only ever holds the
    flags 0 and 1 (an energy that is NaN counts as not silent), so the
    silence ratio is a number between 0 and 1. *)
Theorem silence_ratio_in_unit_interval (E : Essentia) (audio : list num)
  (sampleRate : num) (fuel : nat) (s' : Store) (r : result unit) :
  collect E audio sampleRate fuel emptyStore = (s', r) ->
  Forall isFlag (s' frameSilences) /\
  exists q : Q, silenceRatioOf (s' frameSilences) = Fin q /\ 0 <= q <= 1.
Proof.
  intros C.
  assert (HF : Forall isFlag (s' frameSilences)).
  { rewrite (collect_store E audio sampleRate _ _ _ C) by discriminate.
    apply collected_silence_flags. }
  split; [exact HF|].
  destruct (isFlag_bounds _ HF) as (Hfin & Hlo & Hhi).
  exists (meanQ (s' frameSilences)).
  rewrite silenceRatioOf_mean. split; [now apply calculateStats_mean|].
  rewrite meanQ_summaryMean.
  destruct (s' frameSilences) as [|x l] eqn:El.
  - simpl. split; discriminate.
  - unfold summaryMean. apply arithmeticMean_bounds; [congruence| |];
      assumption.
Qed.

Lemma silence_ratio_in_unit_interval_witness :
  exists q : Q,
    silenceRatioOf
      (fst (collect toyEssentia (toyAudio 10000) (Fin 44100)
              (Z.to_nat (length_ (toyAudio 10000))) emptyStore)
         frameSilences) = Fin q /\ 0 <= q <= 1.
Proof.
  destruct (collect toyEssentia (toyAudio 10000) (Fin 44100)
              (Z.to_nat (length_ (toyAudio 10000))) emptyStore)
    as [s' r] eqn:C.
  exact (proj2 (silence_ratio_in_unit_interval _ _ _ _ _ _ C)).
Defined.

(** ** Bars that cannot throw *)

Lemma clamp_0_100 (x : num) :
  let c := Math_min (Fin 100) (Math_max (Fin 0) x) in
  c = NaN \/ in_0_100 c.
Proof.
  destruct x as [q| | |]; cbv zeta.
  - right. rewrite Math_max_Fin, Math_min_Fin. cbn [in_0_100].
    split_minmax; lra.
  - right. vm_compute. split; discriminate.
  - right. vm_compute. split; discriminate.
  - now left.
Qed.

Lemma createBar_in_0_100 (x : num) :
  in_0_100 x ->
  exists bar : string, createBar x = Some bar /\ String.length bar = 20%nat.
Proof.
  destruct x as [q| | |]; try contradiction. intros [H0 H100].
  destruct (filledOf_range q) as [Hlo Hhi]. rewrite createBar_Fin.
  assert (H1 : (0 <= filledOf q)%Z) by (apply Hlo; lra).
  assert (H2 : (filledOf q <= 20)%Z) by (apply Hhi; lra).
  destruct (Z.ltb_spec (filledOf q) 0); [lia|].
  destruct (Z.ltb_spec (20 - filledOf q) 0); [lia|].
  eexists. split; [reflexivity|].
  rewrite length_append, !length_repeat_char. lia.
Qed.

Lemma createBar_shape (x : num) (bar : string) :
  createBar x = Some bar ->
  String.length bar = 20%nat \/ (bar = EmptyString /\ x = NaN).
Proof.
  destruct x as [q| | |]; try discriminate.
  - rewrite createBar_Fin.
    destruct (Z.ltb_spec (filledOf q) 0) as [|H1]; [discriminate|].
    destruct (Z.ltb_spec (20 - filledOf q) 0) as [|H2]; [discriminate|].
    intros Hb. left.
    assert (Hbar : bar = (repeat_string "#" (Z.to_nat (filledOf q)) ++
                          repeat_string "-" (Z.to_nat (20 - filledOf q)))%string)
      by congruence.
    rewrite Hbar, length_append, !length_repeat_char. lia.
  - intros Hb. inversion Hb. now right.
Qed.

(** X7: The high-low balance is NaN or lies in [0,100] for all inputs
    whatsoever (infinite and NaN means included), so the bar of the
    High-Low Bal line is never the one that throws. *)
Theorem highLowBalance_never_throws (lowEnergyMean highEnergyMean : num) :
  (highLowBalanceOf lowEnergyMean highEnergyMean = NaN \/
   in_0_100 (highLowBalanceOf lowEnergyMean highEnergyMean)) /\
  createBar (highLowBalanceOf lowEnergyMean highEnergyMean) <> None.
Proof.
  assert (H : highLowBalanceOf lowEnergyMean highEnergyMean = NaN \/
              in_0_100 (highLowBalanceOf lowEnergyMean highEnergyMean)).
  { unfold highLowBalanceOf. cbv zeta.
    destruct (gtb (lowEnergyMean + highEnergyMean) (Fin 0)).
    - apply clamp_0_100.
    - right. simpl. split; discriminate. }
  split; [exact H|].
  destruct H as [-> | H]; [discriminate|].
  destruct (createBar_in_0_100 _ H) as (bar & -> & _). discriminate.
Qed.

(** ** The shape of the report *)

Lemma logLines_shape (l : list (string * num)) :
  let (lines, r) := logLines l in
  map (fun x : Line => fst (fst x)) lines
    = firstn (List.length lines) (map fst l) /\
  map (fun x : Line => snd x) lines
    = firstn (List.length lines) (map snd l) /\
  (r = Ok tt <-> List.length lines = List.length l) /\
  r <> OutOfFuel /\
  Forall barShape lines.
Proof.
  induction l as [|[label score] l IH]; cbn [logLines].
  - repeat split; (reflexivity || discriminate || constructor).
  - destruct (createBar score) as [bar|] eqn:B.
    + destruct (logLines l) as [out r].
      destruct IH as (H1 & H2 & H3 & H4 & H5).
      cbn [map List.length firstn fst snd]. rewrite H1, H2.
      split; [reflexivity|]. split; [reflexivity|].
      split; [rewrite H3; split; intros; lia|]. split; [exact H4|].
      constructor; [|exact H5].
      unfold barShape. cbn [fst snd].
      destruct (createBar_shape _ _ B) as [H|[H ->]]; [now left|now right].
    + repeat split; (discriminate || constructor).
Qed.

(** X8: The collection phase throws exactly when [arrayToVector], [Windowing]
    or [Spectrum] throws for some frame offset of the buffer; the run then
    throws without printing any line. *)
Theorem unprepared_frame_is_fatal (E : Essentia) (audio : list num)
  (sampleRate : num) :
  (snd (collect E audio sampleRate (Z.to_nat (length_ audio)) emptyStore)
     = Throw
   <-> forallb (prepared E audio) (frameOffsets (length_ audio)) = false) /\
  (forallb (prepared E audio) (frameOffsets (length_ audio)) = false ->
   measureAudioCharacteristics E audio sampleRate = ([], Throw)).
Proof.
  assert (Hc : forallb (prepared E audio) (frameOffsets (length_ audio))
               = false ->
               snd (collect E audio sampleRate (Z.to_nat (length_ audio))
                      emptyStore) = Throw).
  { rewrite frameOffsets_offsetsFrom. intros H.
    unfold collect. unfold bind at 1. rewrite forLoop_runAll.
    unfold bind at 1.
    destruct (runAll_frames E audio sampleRate
                (offsetsFrom (Z.to_nat (length_ audio))
                   (length_ audio - frameSize) hopSize 0)
                emptyStore) as (s1 & -> & _).
    now rewrite H. }
  split; [split; [|exact Hc]|].
  - intros H.
    destruct (forallb (prepared E audio) (frameOffsets (length_ audio)))
      eqn:F; [|reflexivity].
    destruct (collect_completes E audio sampleRate F) as (s' & C).
    rewrite C in H. discriminate.
  - intros H. apply Hc in H. unfold measureAudioCharacteristics.
    destruct (collect E audio sampleRate (Z.to_nat (length_ audio))
                emptyStore) as [s r].
    simpl in H. now subst.
Qed.

Lemma unprepared_frame_is_fatal_witness :
  measureAudioCharacteristics brokenEssentia
    (Fin 7 :: toyAudio 9999) (Fin 44100) = ([], Throw).
Proof.
  apply (proj2 (unprepared_frame_is_fatal brokenEssentia
                  (Fin 7 :: toyAudio 9999) (Fin 44100))).
  vm_compute. reflexivity.
Defined.

(** X9: The report.  The lines printed are always the first lines of the fixed
    sequence Aggressiveness, Tonality, Softness, High-Low Bal, Density; the
    run completes exactly when all five were printed; and every printed bar
    has twenty characters, or is empty when its score is NaN. *)
Theorem report_shape (E : Essentia) (audio : list num) (sampleRate : num) :
  let lines := fst (measureAudioCharacteristics E audio sampleRate) in
  let r := snd (measureAudioCharacteristics E audio sampleRate) in
  map (fun x : Line => fst (fst x)) lines = firstn (List.length lines) labels /\
  (r = Ok tt <-> List.length lines = 5%nat) /\
  Forall barShape lines.
Proof.
  cbv zeta. unfold measureAudioCharacteristics.
  destruct (collect E audio sampleRate (Z.to_nat (length_ audio)) emptyStore)
    as [s [[]| |]].
  - pose proof (logLines_shape (labelled (computeScores s))) as H.
    destruct (logLines (labelled (computeScores s))) as [lines r].
    destruct H as (H1 & _ & H3 & _ & H5). cbn [fst snd].
    split; [exact H1|]. split; [exact H3|exact H5].
  - cbn. repeat split; (discriminate || constructor).
  - cbn. repeat split; (discriminate || constructor).
Qed.

(** ** Whole runs *)

Lemma computeScores_ext (s t : Store) :
  (forall f : series, s f = t f) -> computeScores s = computeScores t.
Proof.
  intros H. unfold computeScores. now rewrite !H.
Qed.

Lemma computeScores_range (s : Store) :
  (forall f : series, Forall nonneg (s f)) ->
  Forall in_0_100 (map snd (labelled (computeScores s))).
Proof.
  intros H. unfold labelled, computeScores.
  cbn [aggressivenessScore tonalityScore softnessScore highLowBalance
       densityScore map snd].
  rewrite silenceRatioOf_mean.
  pose proof (normalizedDynamic_range _ (H dynamicComplexities)) as Hd.
  destruct (normalizedDynamicOf (s dynamicComplexities)) as [nd| | |];
    try contradiction.
  destruct (percentile90_nonneg _ (H loudnesses)) as (p90 & -> & Hp).
  repeat match goal with
    | |- context [mean (calculateStats (s ?f))] =>
        let m := fresh "m" in let Hm := fresh "Hm" in
        destruct (mean_nonneg _ (H f)) as (m & -> & Hm)
    end.
  repeat constructor.
  - now apply aggressiveness_range.
  - now apply tonality_range.
  - now apply softness_range.
  - apply highLowBalance_range.
  - now apply density_range.
Qed.

Lemma logLines_in_range (l : list (string * num)) :
  Forall in_0_100 (map snd l) ->
  exists lines : list Line,
    logLines l = (lines, Ok tt) /\
    List.length lines = List.length l /\
    Forall (fun x : Line =>
              String.length (snd (fst x)) = 20%nat /\ in_0_100 (snd x)) lines.
Proof.
  induction l as [|[label score] l IH]; cbn [map snd logLines].
  - exists []. repeat split; constructor.
  - intros H. inversion H as [|? ? Hs Hl]; subst.
    destruct (createBar_in_0_100 _ Hs) as (bar & -> & Hb).
    destruct (IH Hl) as (lines & -> & Hn & HF).
    exists ((label, bar, score) :: lines).
    split; [reflexivity|]. split; [simpl; now rewrite Hn|].
    constructor; [now split|exact HF].
Qed.

Lemma collected_nonneg (E : Essentia) (audio : list num) (sampleRate : num)
  (f : series) (l : list Z) :
  (forall i : Z,
     In i l ->
     exists fv sp,
       prepare E audio i = Some (fv, sp) /\
       nonnegOpt (attempt E audio sampleRate i fv sp f)) ->
  Forall nonneg (flat_map (collected E audio sampleRate f) l).
Proof.
  induction l as [|i l IH]; intros H; simpl; [constructor|].
  apply Forall_app. split.
  - destruct (H i (or_introl eq_refl)) as (fv & sp & P & Hn).
    unfold collected. rewrite P.
    destruct (attempt E audio sampleRate i fv sp f); constructor;
      [exact Hn|constructor].
  - apply IH. intros j Hj. apply H. now right.
Qed.

(** X10: A run over well-behaved features prints the whole report.  When, at
    every frame offset of the buffer, the frame can be prepared and each
    feature either throws or returns a finite non-negative value, and the
    dynamic complexity does likewise, the run completes and prints five
    lines, each with a bar of twenty characters and a score in [0,100]. *)
Theorem well_behaved_run (E : Essentia) (audio : list num) (sampleRate : num) :
  (forall i : Z,
     In i (frameOffsets (length_ audio)) ->
     exists fv sp,
       prepare E audio i = Some (fv, sp) /\
       forall f : series, nonnegOpt (attempt E audio sampleRate i fv sp f)) ->
  nonnegOpt (dynamicComplexityOf E audio) ->
  exists lines : list Line,
    measureAudioCharacteristics E audio sampleRate = (lines, Ok tt) /\
    map (fun x : Line => fst (fst x)) lines = labels /\
    Forall (fun x : Line =>
              String.length (snd (fst x)) = 20%nat /\ in_0_100 (snd x)) lines.
Proof.
  intros Hframes Hdc.
  assert (Hprep : forallb (prepared E audio) (frameOffsets (length_ audio))
                  = true).
  { apply forallb_forall. intros i Hi.
    destruct (Hframes i Hi) as (fv & sp & P & _).
    unfold prepared. now rewrite P. }
  destruct (collect_completes E audio sampleRate Hprep) as (s & C).
  assert (Hs : forall f : series, Forall nonneg (s f)).
  { intros f. destruct (series_eq_dec f dynamicComplexities) as [->|Hf].
    - rewrite (collect_dynamic E audio sampleRate _ _ _ C).
      destruct (dynamicComplexityOf E audio); constructor;
        [exact Hdc|constructor].
    - rewrite (collect_store E audio sampleRate _ _ _ C f Hf).
      rewrite <- frameOffsets_offsetsFrom, processed_all by assumption.
      apply collected_nonneg. intros i Hi.
      destruct (Hframes i Hi) as (fv & sp & P & Hn). eauto. }
  unfold measureAudioCharacteristics. rewrite C.
  destruct (logLines_in_range _ (computeScores_range s Hs))
    as (lines & HL & Hn & HF).
  exists lines. split; [exact HL|]. split; [|exact HF].
  pose proof (logLines_shape (labelled (computeScores s))) as Hsh.
  rewrite HL in Hsh. destruct Hsh as (H1 & _).
  rewrite H1, Hn. reflexivity.
Qed.

Lemma well_behaved_run_witness :
  exists lines : list Line,
    measureAudioCharacteristics toyEssentia (toyAudio 10000) (Fin 44100)
      = (lines, Ok tt) /\
    map (fun x : Line => fst (fst x)) lines = labels /\
    Forall (fun x : Line =>
              String.length (snd (fst x)) = 20%nat /\ in_0_100 (snd x)) lines.
Proof.
  apply (well_behaved_run toyEssentia (toyAudio 10000) (Fin 44100)).
  - intros i Hi.
    assert (Hc : i = 0%Z \/ i = 2048%Z \/ i = 4096%Z).
    { vm_compute in Hi. intuition. }
    destruct Hc as [->|[->| ->]];
      (eexists; eexists; split; [vm_compute; reflexivity|];
       intros f; destruct f; vm_compute; (exact I || discriminate)).
  - vm_compute. discriminate.
Defined.

Lemma frameOffsets_short (len : Z) :
  (len <= frameSize)%Z -> frameOffsets len = [].
Proof.
  intros H. destruct (frameOffsets len) as [|i l] eqn:E; [reflexivity|].
  exfalso. assert (Hi : In i (frameOffsets len)) by (rewrite E; now left).
  apply frameOffsets_In in Hi. destruct Hi as (k & Hk & -> & Hlt).
  unfold hopSize in *. lia.
Qed.

(** X11: A buffer of at most one frame (4096 samples or fewer) is not analysed
    frame by frame at all: the collection completes with every per-frame
    series empty, and the scores are the constants of the empty summaries:
    tonality 55.1, softness 100, balance 50, density 40.  Only the dynamic
    complexity of the buffer can move the aggressiveness; when it throws,
    aggressiveness is 5 and the report is the same five lines for every such
    buffer. *)
Theorem short_buffer_run (E : Essentia) (audio : list num) (sampleRate : num) :
  (length_ audio <= frameSize)%Z ->
  exists s : Store,
    collect E audio sampleRate (Z.to_nat (length_ audio)) emptyStore
      = (s, Ok tt) /\
    (forall f : series, f <> dynamicComplexities -> s f = []) /\
    s dynamicComplexities = option_list (dynamicComplexityOf E audio) /\
    tonalityScore (computeScores s) =n= Fin 55.1 /\
    softnessScore (computeScores s) =n= Fin 100 /\
    highLowBalance (computeScores s) = Fin 50 /\
    densityScore (computeScores s) =n= Fin 40 /\
    (dynamicComplexityOf E audio = None ->
     aggressivenessScore (computeScores s) =n= Fin 5 /\
     snd (measureAudioCharacteristics E audio sampleRate) = Ok tt /\
     map (fun x : Line => fst x)
       (fst (measureAudioCharacteristics E audio sampleRate)) =
       [ ("Aggressiveness: ", "#-------------------");
         ("Tonality:       ", "###########---------");
         ("Softness:       ", "####################");
         ("High-Low Bal:   ", "##########----------");
         ("Density:        ", "########------------") ]%string).
Proof.
  intros Hlen. pose proof (frameOffsets_short _ Hlen) as Hoff.
  assert (Hprep : forallb (prepared E audio) (frameOffsets (length_ audio))
                  = true) by now rewrite Hoff.
  destruct (collect_completes E audio sampleRate Hprep) as (s & C).
  exists s. split; [exact C|].
  assert (Hs : forall f : series, f <> dynamicComplexities -> s f = []).
  { intros f Hf. rewrite (collect_store E audio sampleRate _ _ _ C f Hf).
    rewrite <- frameOffsets_offsetsFrom, Hoff. reflexivity. }
  pose proof (collect_dynamic E audio sampleRate _ _ _ C) as Hd.
  cbv iota in Hd.
  split; [exact Hs|]. split; [exact Hd|].
  set (t := fun f : series =>
              match f with
              | dynamicComplexities => option_list (dynamicComplexityOf E audio)
              | _ => []
              end).
  assert (Hext : computeScores s = computeScores t).
  { apply computeScores_ext. intros f.
    destruct (series_eq_dec f dynamicComplexities) as [->|Hf];
      [exact Hd|].
    rewrite (Hs f Hf). now destruct f. }
  rewrite Hext.
  split; [vm_compute; reflexivity|]. split; [vm_compute; reflexivity|].
  split; [reflexivity|]. split; [vm_compute; reflexivity|].
  intros Hnone. unfold measureAudioCharacteristics. rewrite C, Hext.
  subst t. rewrite Hnone. vm_compute. repeat split; reflexivity.
Qed.

Lemma short_buffer_run_witness :
  exists s : Store,
    collect fiveBinEssentia (toyAudio 4096) (Fin 44100)
      (Z.to_nat (length_ (toyAudio 4096))) emptyStore = (s, Ok tt) /\
    (forall f : series, f <> dynamicComplexities -> s f = []) /\
    aggressivenessScore (computeScores s) =n= Fin 5.
Proof.
  destruct (short_buffer_run fiveBinEssentia (toyAudio 4096) (Fin 44100))
    as (s & C & Hs & _ & _ & _ & _ & _ & Hn).
  - vm_compute. discriminate.
  - exists s. split; [exact C|]. split; [exact Hs|].
    apply Hn. reflexivity.
Defined.

(** ** The 90th percentile as an order statistic *)

Lemma filter_length_perm {A} (p : A -> bool) (l l' : list A) :
  Permutation l l' ->
  List.length (filter p l) = List.length (filter p l').
Proof.
  induction 1 as [|x l l' _ IH|x y l|l l' l'' _ IH1 _ IH2]; simpl.
  - reflexivity.
  - destruct (p x); simpl; now rewrite IH.
  - destruct (p x), (p y); reflexivity.
  - now rewrite IH1.
Qed.

Lemma filter_length_mono {A} (p q : A -> bool) (l : list A) :
  (forall x, In x l -> p x = true -> q x = true) ->
  (List.length (filter p l) <= List.length (filter q l))%nat.
Proof.
  induction l as [|x l IH]; intros H; simpl; [lia|].
  assert (IH' : (List.length (filter p l) <= List.length (filter q l))%nat).
  { apply IH. intros y Hy. apply H. now right. }
  destruct (p x) eqn:Px.
  - rewrite (H x (or_introl eq_refl) Px). simpl. lia.
  - destruct (q x); simpl; lia.
Qed.

Lemma filter_length_all {A} (p : A -> bool) (l : list A) :
  Forall (fun x => p x = true) l -> List.length (filter p l) = List.length l.
Proof.
  induction 1 as [|x l Hx _ IH]; simpl; [reflexivity|].
  rewrite Hx. simpl. now rewrite IH.
Qed.

Lemma filter_length_none {A} (p : A -> bool) (l : list A) :
  Forall (fun x => p x = false) l -> List.length (filter p l) = 0%nat.
Proof.
  induction 1 as [|x l Hx _ IH]; simpl; [reflexivity|]. now rewrite Hx.
Qed.

Lemma filter_all_Forall {A} (p : A -> bool) (l : list A) :
  List.length (filter p l) = List.length l -> Forall (fun x => p x = true) l.
Proof.
  induction l as [|x l IH]; simpl; [constructor|].
  pose proof (filter_length_le p l) as Hle.
  destruct (p x) eqn:Px; simpl; intros H.
  - constructor; [exact Px|]. apply IH. lia.
  - lia.
Qed.

Lemma num_le_trans : RelationClasses.Transitive num_le.
Proof. intros x y z. unfold num_le. apply Qle_trans. Qed.

Lemma ascending_split (l1 l2 : list num) (y : num) :
  ascending (l1 ++ y :: l2) ->
  Forall (fun z => num_le z y) l1 /\ Forall (fun z => num_le y z) l2.
Proof.
  intros H. apply Sorted_StronglySorted in H; [|exact num_le_trans].
  induction l1 as [|x l1 IH]; simpl in H.
  - inversion H; subst. split; [constructor|assumption].
  - inversion H as [|? ? Hs Hx]; subst.
    destruct (IH Hs) as [IH1 IH2]. split; [|exact IH2].
    constructor; [|exact IH1].
    apply Forall_app in Hx. destruct Hx as [_ Hx]. now inversion Hx.
Qed.

(** The entry at index [k] of an ascending list: at most [k] entries are
    strictly smaller, more than [k] are smaller or equal. *)
Lemma ascending_rank (l : list num) (k : nat) (y : num) :
  ascending l -> nth_error l k = Some y ->
  (countLess (val y) l <= k < countAtMost (val y) l)%nat.
Proof.
  intros Hs Hk. apply nth_error_split in Hk.
  destruct Hk as (l1 & l2 & -> & Hlen).
  destruct (ascending_split _ _ _ Hs) as [H1 H2].
  unfold countLess, countAtMost. rewrite !filter_app, !length_app.
  cbn [filter]. split.
  - pose proof (filter_length_le (fun z => negb (Qle_bool (val y) (val z))) l1).
    assert (Hy : Qle_bool (val y) (val y) = true)
      by (apply Qle_bool_iff, Qle_refl).
    rewrite Hy. cbn [negb].
    rewrite (filter_length_none _ l2); [lia|].
    eapply Forall_impl; [|exact H2]. intros z Hz. simpl.
    apply Bool.negb_false_iff, Qle_bool_iff. exact Hz.
  - rewrite (filter_length_all _ l1).
    + assert (Hy : Qle_bool (val y) (val y) = true)
        by (apply Qle_bool_iff, Qle_refl).
      rewrite Hy. simpl. lia.
    + eapply Forall_impl; [|exact H1]. intros z Hz. simpl.
      apply Qle_bool_iff. exact Hz.
Qed.

Lemma percentile90_entry (arr : list num) :
  arr <> [] -> Forall finite arr ->
  exists x : Q,
    percentile90 (calculateStats arr) = Some (Fin x) /\
    In (Fin x) arr /\
    nth_error (sort sub arr) (rank90 (length_ arr)) = Some (Fin x).
Proof.
  intros Hne Hfin. rewrite calculateStats_percentile90 by assumption.
  fold (rank90 (length_ arr)).
  pose proof (length_pos_nonempty arr Hne) as Hlen.
  destruct (nth_error (sort sub arr) (rank90 (length_ arr))) as [y|] eqn:E.
  - assert (Hy : In y arr).
    { apply (Permutation_in _ (sort_perm sub arr)).
      eapply nth_error_In; eassumption. }
    rewrite Forall_forall in Hfin. specialize (Hfin y Hy).
    destruct y as [x| | |]; try contradiction. now exists x.
  - exfalso. apply nth_error_None in E.
    pose proof (length_sort sub arr) as HL. unfold length_, rank90 in *.
    assert (Z.of_nat (List.length arr) * 9 / 10 < Z.of_nat (List.length arr))%Z
      by (apply Z.div_lt_upper_bound; lia).
    lia.
Qed.

(** X12: [percentile90] is a nearest-rank order statistic: on a non-empty
    series of N finite numbers it is an entry x of the series such that at
    most floor(0.9 N) entries are strictly smaller than x and more than
    floor(0.9 N) entries are smaller than or equal to x. *)
Theorem percentile90_rank (arr : list num) :
  arr <> [] -> Forall finite arr ->
  exists x : Q,
    percentile90 (calculateStats arr) = Some (Fin x) /\
    In (Fin x) arr /\
    (countLess x arr <= rank90 (length_ arr) < countAtMost x arr)%nat /\
    Z.of_nat (rank90 (length_ arr)) = Qfloor (0.9 * inject_Z (length_ arr)).
Proof.
  intros Hne Hfin.
  destruct (percentile90_entry arr Hne Hfin) as (x & Hp & Hin & Hn).
  exists x. split; [exact Hp|]. split; [exact Hin|]. split.
  - pose proof (ascending_rank _ _ _ (sort_sorted arr Hfin) Hn) as Hr.
    unfold countLess, countAtMost in *.
    rewrite !(filter_length_perm _ _ _ (sort_perm sub arr)) in Hr.
    exact Hr.
  - unfold rank90. pose proof (length_nonneg arr).
    rewrite Z2Nat.id by (apply Z.div_pos; lia).
    unfold Qfloor, Qmult, inject_Z. cbn [Qnum Qden].
    f_equal. apply Z.mul_comm.
Qed.

Lemma percentile90_rank_witness :
  exists x : Q,
    percentile90 (calculateStats (map ofZ [5; 3; 9; 1; 7; 2; 8; 4; 6; 0; 9]%Z))
      = Some (Fin x) /\
    (countLess x (map ofZ [5; 3; 9; 1; 7; 2; 8; 4; 6; 0; 9]%Z)
     <= rank90 11
     < countAtMost x (map ofZ [5; 3; 9; 1; 7; 2; 8; 4; 6; 0; 9]%Z))%nat.
Proof.
  destruct (percentile90_rank (map ofZ [5; 3; 9; 1; 7; 2; 8; 4; 6; 0; 9]%Z))
    as (x & Hp & _ & Hr & _).
  - discriminate.
  - repeat constructor.
  - exists x. split; [exact Hp|exact Hr].
Defined.

Lemma seriesMax_least (l : list num) (v : Q) :
  l <> [] -> Forall (fun x => val x <= v) l -> seriesMax l <= v.
Proof.
  destruct l as [|x t]; [congruence|]. intros _ H.
  inversion H as [|? ? Hx Ht]; subst. simpl. clear H.
  induction Ht as [|y t Hy _ IH]; simpl; [exact Hx|].
  apply Q.max_lub; [exact Hy|exact IH].
Qed.

Lemma rank90_last (n : Z) : (1 <= n <= 10)%Z -> rank90 n = Z.to_nat (n - 1).
Proof.
  intros H. unfold rank90. f_equal.
  symmetry. apply (Z.div_unique _ _ _ (10 - n)); lia.
Qed.

(** X13: On a series of at most ten entries [percentile90] is the largest
    entry: floor(0.9 N) = N - 1 for 1 <= N <= 10. *)
Theorem percentile90_is_max_up_to_ten (arr : list num) :
  (1 <= length_ arr <= 10)%Z -> Forall finite arr ->
  exists x : Q,
    percentile90 (calculateStats arr) = Some (Fin x) /\ x == seriesMax arr.
Proof.
  intros HN Hfin.
  assert (Hne : arr <> []) by (intros ->; unfold length_ in HN; simpl in HN; lia).
  destruct (percentile90_entry arr Hne Hfin) as (x & Hp & Hin & Hn).
  exists x. split; [exact Hp|].
  pose proof (ascending_rank _ _ _ (sort_sorted arr Hfin) Hn) as [_ Hr].
  unfold countAtMost in Hr.
  rewrite (filter_length_perm _ _ _ (sort_perm sub arr)) in Hr.
  rewrite rank90_last in Hr by assumption.
  pose proof (filter_length_le (fun y => Qle_bool (val y) (val (Fin x))) arr)
    as Hle.
  assert (Hall : Forall (fun y => val y <= x) arr).
  { eapply Forall_impl;
      [|apply (filter_all_Forall (fun y => Qle_bool (val y) (val (Fin x))))].
    - intros y Hy. simpl in Hy. now apply Qle_bool_iff in Hy.
    - unfold length_ in *. lia. }
  apply Qle_antisym.
  - pose proof (seriesMax_ge arr) as Hmax. rewrite Forall_forall in Hmax.
    exact (Hmax _ Hin).
  - now apply seriesMax_least.
Qed.

Lemma percentile90_is_max_up_to_ten_witness :
  exists x : Q,
    percentile90 (calculateStats [Fin 3; Fin 8; Fin 1]) = Some (Fin x) /\
    x == seriesMax [Fin 3; Fin 8; Fin 1].
Proof.
  apply (percentile90_is_max_up_to_ten [Fin 3; Fin 8; Fin 1]).
  - vm_compute. split; discriminate.
  - repeat constructor.
Defined.

Lemma rank_unique (l : list num) (k : nat) (x x' : Q) :
  (countLess x l <= k < countAtMost x l)%nat ->
  (countLess x' l <= k < countAtMost x' l)%nat ->
  x == x'.
Proof.
  assert (Hlt : forall a b : Q,
            a < b -> (countAtMost a l <= countLess b l)%nat).
  { intros a b Hab. apply filter_length_mono. intros y _ Hy.
    apply Qle_bool_iff in Hy. apply Bool.negb_true_iff.
    destruct (Qle_bool b (val y)) eqn:C; [|reflexivity].
    apply Qle_bool_iff in C. lra. }
  intros H1 H2. destruct (Q_dec x x') as [[H|H]|H]; [| |exact H].
  - specialize (Hlt _ _ H). lia.
  - specialize (Hlt _ _ H). lia.
Qed.

(** X14: the percentile90 of [calculateStats] does not depend on the order
    of the entries: two series of finite numbers that are permutations of
    each other have the same percentile90.  The mean does depend on it:
    in binary64 the mean of [0.3, 0.2, 0.1] is smaller than the mean of
    [0.1, 0.2, 0.3]. *)
Theorem percentile90_order_irrelevant :
  (forall arr arr' : list num,
     Permutation arr arr' -> Forall finite arr ->
     toNumber (percentile90 (calculateStats arr))
       =n= toNumber (percentile90 (calculateStats arr'))) /\
  PrimFloat.ltb (mean64 [dec64 3 10; dec64 2 10; dec64 1 10])
                (mean64 [dec64 1 10; dec64 2 10; dec64 3 10]) = true.
Proof.
  split; [|vm_compute; reflexivity].
  intros arr arr' HP Hfin.
  assert (Hfin' : Forall finite arr') by now rewrite <- HP.
  assert (Hlen : length_ arr = length_ arr')
    by (unfold length_; now rewrite (Permutation_length HP)).
  destruct arr as [|a t] eqn:Ea.
  - apply Permutation_nil in HP. subst. reflexivity.
  - rewrite <- Ea in *.
    assert (Hne : arr <> []) by (rewrite Ea; congruence).
    assert (Hne' : arr' <> []).
    { intros ->. apply Permutation_sym, Permutation_nil in HP. congruence. }
    destruct (percentile90_entry arr Hne Hfin) as (x & -> & _ & Hn).
    destruct (percentile90_entry arr' Hne' Hfin') as (x' & -> & _ & Hn').
    cbn [toNumber num_eq].
    pose proof (ascending_rank _ _ _ (sort_sorted arr Hfin) Hn) as Hr.
    pose proof (ascending_rank _ _ _ (sort_sorted arr' Hfin') Hn') as Hr'.
    unfold countLess, countAtMost in Hr, Hr'.
    rewrite !(filter_length_perm _ _ _ (sort_perm sub arr)) in Hr.
    rewrite !(filter_length_perm _ _ _ (sort_perm sub arr')) in Hr'.
    rewrite <- !(filter_length_perm _ _ _ HP) in Hr'.
    rewrite <- Hlen in Hr'.
    exact (rank_unique arr _ x x' Hr Hr').
Qed.

Lemma percentile90_order_irrelevant_witness :
  toNumber (percentile90 (calculateStats [Fin 3; Fin 8; Fin 1]))
    =n= toNumber (percentile90 (calculateStats [Fin 8; Fin 3; Fin 1])).
Proof.
  apply (proj1 percentile90_order_irrelevant
           [Fin 3; Fin 8; Fin 1] [Fin 8; Fin 3; Fin 1]).
  - apply perm_swap.
  - repeat constructor.
Defined.

(** ** Monotone scores and bars *)

Lemma qmin_mono (c a b : Q) : a <= b -> qmin c a <= qmin c b.
Proof.
  intros H.
  destruct (qmin_spec c a) as [[H1 ->]|[H1 ->]],
           (qmin_spec c b) as [[H2 ->]|[H2 ->]]; lra.
Qed.

Lemma qmax_mono (c a b : Q) : a <= b -> qmax c a <= qmax c b.
Proof.
  intros H.
  destruct (qmax_spec c a) as [[H1 ->]|[H1 ->]],
           (qmax_spec c b) as [[H2 ->]|[H2 ->]]; lra.
Qed.

(** X15: Aggressiveness never decreases when one of its inputs increases: it
    is monotone in the means of HFC, centroid, complexity, dissonance and
    flux and in the normalized dynamic complexity. *)
Theorem aggressiveness_monotone (h c x d f nd h' c' x' d' f' nd' : Q) :
  h <= h' -> c <= c' -> x <= x' -> d <= d' -> f <= f' -> nd <= nd' ->
  exists a a' : Q,
    aggressivenessOf (Fin h) (Fin c) (Fin x) (Fin d) (Fin f) (Fin nd) = Fin a /\
    aggressivenessOf (Fin h') (Fin c') (Fin x') (Fin d') (Fin f') (Fin nd')
      = Fin a' /\
    a <= a'.
Proof.
  intros Hh Hc Hx Hd Hf Hn. unfold aggressivenessOf.
  rewrite !div_Fin by discriminate. cbn [mul add].
  rewrite !Math_min_Fin. cbn [mul add].
  eexists. eexists. split; [reflexivity|]. split; [reflexivity|].
  assert (T1 : qmin 100 (h / 10000 * 100) <= qmin 100 (h' / 10000 * 100))
    by (apply qmin_mono; const_div; lra).
  assert (T2 : qmin 100 (c / 10000 * 100) <= qmin 100 (c' / 10000 * 100))
    by (apply qmin_mono; const_div; lra).
  assert (T3 : qmin 100 (x / 20 * 100) <= qmin 100 (x' / 20 * 100))
    by (apply qmin_mono; const_div; lra).
  assert (T4 : qmin 100 (d * 200) <= qmin 100 (d' * 200))
    by (apply qmin_mono; lra).
  assert (T5 : qmin 100 (f * 1000) <= qmin 100 (f' * 1000))
    by (apply qmin_mono; lra).
  lra.
Qed.

Lemma aggressiveness_monotone_witness :
  exists a a' : Q,
    aggressivenessOf (Fin 100) (Fin 2000) (Fin 3) (Fin 0.1) (Fin 0.01) (Fin 50)
      = Fin a /\
    aggressivenessOf (Fin 200) (Fin 2000) (Fin 5) (Fin 0.1) (Fin 0.02) (Fin 50)
      = Fin a' /\
    a <= a'.
Proof.
  apply aggressiveness_monotone; discriminate.
Defined.

(** X16: Softness never increases when rolloff, loudness (mean or 90th
    percentile) or zero-crossing rate increases. *)
Theorem softness_antitone (r l z p r' l' z' p' : Q) :
  r <= r' -> l <= l' -> z <= z' -> p <= p' ->
  exists a a' : Q,
    softnessOf (Fin r) (Fin l) (Fin z) (Some (Fin p)) = Fin a /\
    softnessOf (Fin r') (Fin l') (Fin z') (Some (Fin p')) = Fin a' /\
    a' <= a.
Proof.
  intros Hr Hl Hz Hp. unfold softnessOf. cbn [toNumber].
  rewrite !div_Fin by discriminate. cbn [mul add sub neg].
  rewrite !Math_min_Fin. cbn [mul add sub neg].
  rewrite !Math_max_Fin. cbn [mul add sub neg].
  eexists. eexists. split; [reflexivity|]. split; [reflexivity|].
  assert (M1 : qmin 100 (l / 20) <= qmin 100 (l' / 20))
    by (apply qmin_mono; const_div; lra).
  assert (M2 : qmin 100 (p / 30) <= qmin 100 (p' / 30))
    by (apply qmin_mono; const_div; lra).
  assert (T1 : qmax 0 (100 + - (r' / 100)) <= qmax 0 (100 + - (r / 100)))
    by (apply qmax_mono; const_div; lra).
  assert (T2 : qmax 0 (100 + - qmin 100 (l' / 20))
               <= qmax 0 (100 + - qmin 100 (l / 20)))
    by (apply qmax_mono; lra).
  assert (T3 : qmax 0 (100 + - (z' * 200)) <= qmax 0 (100 + - (z * 200)))
    by (apply qmax_mono; lra).
  assert (T4 : qmax 0 (100 + - qmin 100 (p' / 30))
               <= qmax 0 (100 + - qmin 100 (p / 30)))
    by (apply qmax_mono; lra).
  lra.
Qed.

Lemma softness_antitone_witness :
  exists a a' : Q,
    softnessOf (Fin 3000) (Fin 100) (Fin 0.1) (Some (Fin 300)) = Fin a /\
    softnessOf (Fin 5000) (Fin 400) (Fin 0.1) (Some (Fin 900)) = Fin a' /\
    a' <= a.
Proof.
  apply softness_antitone; discriminate.
Defined.

Lemma Qfloor_between (x : Q) (k : Z) :
  inject_Z k <= x -> x < inject_Z (k + 1) -> Qfloor x = k.
Proof.
  intros H1 H2.
  pose proof (Qfloor_le x) as Hlo. pose proof (Qlt_floor x) as Hhi.
  assert (A : (Qfloor x < k + 1)%Z).
  { rewrite Zlt_Qlt. eapply Qle_lt_trans; eassumption. }
  assert (B : (k < Qfloor x + 1)%Z).
  { rewrite Zlt_Qlt. eapply Qle_lt_trans; eassumption. }
  lia.
Qed.

(** X17: The resolution of a bar is five points: every score from 5k - 2.5 up
    to, but not including, 5k + 2.5 renders k '#' and 20 - k '-', for
    k = 0..20; and a higher score never renders fewer '#'. *)
Theorem createBar_bands :
  (forall (q : Q) (k : Z),
     (0 <= k <= 20)%Z ->
     inject_Z k * 5 - (5 # 2) <= q < inject_Z k * 5 + (5 # 2) ->
     createBar (Fin q) =
     Some (repeat_string "#" (Z.to_nat k)
           ++ repeat_string "-" (20 - Z.to_nat k))%string) /\
  (forall q q' : Q, q <= q' -> (filledOf q <= filledOf q')%Z).
Proof.
  split.
  - intros q k Hk [H1 H2].
    assert (Hf : filledOf q = k).
    { unfold filledOf. apply Qfloor_between.
      - const_div. lra.
      - rewrite inject_Z_plus. change (inject_Z 1) with 1. const_div. lra. }
    rewrite createBar_Fin, Hf.
    destruct (Z.ltb_spec k 0); [lia|].
    destruct (Z.ltb_spec (20 - k) 0); [lia|].
    replace (Z.to_nat (20 - k)) with (20 - Z.to_nat k)%nat by lia.
    reflexivity.
  - intros q q' H. unfold filledOf. apply Qfloor_resp_le.
    const_div. lra.
Qed.

Lemma createBar_bands_witness :
  createBar (Fin 47.4) = Some "#########-----------"%string /\
  (filledOf 47.4 <= filledOf 81)%Z.
Proof.
  split.
  - apply (proj1 createBar_bands 47.4 9%Z); [lia|].
    split; [discriminate|reflexivity].
  - apply (proj2 createBar_bands). discriminate.
Defined.

(** ** The earlier version *)

Section VersionFacts.

Variable E : Essentia.
Variable audio : list num.
Variable sampleRate : num.

Lemma frameBodyV1_prepared (i : Z) (fv sp : Vec E) (s : Store) :
  prepare E audio i = Some (fv, sp) ->
  frameBodyV1 E audio sampleRate i s
    = (afterFrameV1 E audio sampleRate i fv sp s, Ok tt).
Proof.
  unfold prepare, frameVectorAt, windowSpectrum. intros H.
  destruct (arrayToVector E _) as [v|] eqn:Hv; [|discriminate].
  destruct (Windowing E v true frameSize "blackmanharris62") as [w|] eqn:Hw;
    [|discriminate].
  destruct (Spectrum E w) as [sp'|] eqn:Hsp; [|discriminate].
  injection H as -> ->.
  unfold frameBodyV1. cbv zeta.
  rewrite (bind_Ok _ _ _ _ _ (call_Some _ _ _ Hv)).
  rewrite (bind_Ok _ _ _ _ _ (call_Some _ _ _ Hw)).
  rewrite (bind_Ok _ _ _ _ _ (call_Some _ _ _ Hsp)).
  rewrite (bind_Ok _ _ _ _ _ (try_push _ _ _)).
  rewrite (bind_Ok _ _ _ _ _ (try_push_map _ _ _ _)).
  rewrite (bind_Ok _ _ _ _ _ (try_push _ _ _)).
  rewrite (bind_Ok _ _ _ _ _ (try_push2 _ _ _ _)).
  rewrite (bind_Ok _ _ _ _ _ (try_push _ _ _)).
  rewrite (bind_Ok _ _ _ _ _ (try_push2 _ _ _ _)).
  rewrite (bind_Ok _ _ _ _ _ (try_push _ _ _)).
  rewrite (bind_Ok _ _ _ _ _ (try_push_map _ _ _ _)).
  rewrite (bind_Ok _ _ _ _ _ (try_push _ _ _)).
  rewrite (bind_Ok _ _ _ _ _ (try_push _ _ _)).
  rewrite flux_block.
  reflexivity.
Qed.

Lemma frameBodyV1_unprepared (i : Z) (s : Store) :
  prepare E audio i = None -> frameBodyV1 E audio sampleRate i s = (s, Throw).
Proof.
  unfold prepare, frameVectorAt, windowSpectrum, frameBodyV1. cbv zeta.
  intros H. unfold bind at 1. unfold call at 1.
  destruct (arrayToVector E _) as [v|]; [|reflexivity].
  unfold bind at 1. unfold call at 1.
  destruct (Windowing E v true frameSize "blackmanharris62") as [w|];
    [|reflexivity].
  unfold bind at 1. unfold call at 1.
  destruct (Spectrum E w) as [sp|]; [discriminate|reflexivity].
Qed.

Lemma afterFrameV1_get (i : Z) (fv sp : Vec E) (s : Store) (f : series) :
  afterFrameV1 E audio sampleRate i fv sp s f =
  s f ++ (if inV1 f then option_list (attempt E audio sampleRate i fv sp f)
          else []).
Proof.
  unfold afterFrameV1. cbv zeta. rewrite !pushOpt_get.
  destruct f; cbn [series_eq_dec series_rec series_rect inV1];
    rewrite ?app_nil_r; reflexivity.
Qed.

Lemma runAll_framesV1 (l : list Z) :
  forall s : Store,
  exists s' : Store,
    runAll (frameBodyV1 E audio sampleRate) l s =
      (s', if forallb (prepared E audio) l then Ok tt else Throw) /\
    forall f : series,
      s' f = s f ++ (if inV1 f
                     then flat_map (collected E audio sampleRate f)
                            (processed E audio l)
                     else []).
Proof.
  induction l as [|i l IH]; intros s; cbn [runAll forallb processed].
  - exists s. split; [reflexivity|]. intros f.
    destruct (inV1 f); simpl; now rewrite app_nil_r.
  - unfold prepared at 1 3. unfold bind.
    destruct (prepare E audio i) as [[fv sp]|] eqn:P.
    + rewrite (frameBodyV1_prepared i fv sp s P).
      destruct (IH (afterFrameV1 E audio sampleRate i fv sp s))
        as (s' & Hrun & Hs').
      exists s'. split; [exact Hrun|].
      intros f. rewrite Hs', afterFrameV1_get.
      destruct (inV1 f); [|now rewrite !app_nil_r].
      cbn [flat_map]. unfold collected at 2. rewrite P. now rewrite app_assoc.
    + rewrite (frameBodyV1_unprepared i s P).
      exists s. split; [reflexivity|]. intros f.
      destruct (inV1 f); simpl; now rewrite app_nil_r.
Qed.

Lemma loop_then_dynamic (body : Z -> Exc Store unit) :
  (forLoop (Z.to_nat (length_ audio)) (length_ audio - frameSize) hopSize
     body 0 ;;;
   try (audioVector <- call (arrayToVector E audio) ;;
        dc <- call (DynamicComplexity E audioVector) ;;
        push dynamicComplexities dc)) emptyStore =
  match
    runAll body
      (offsetsFrom (Z.to_nat (length_ audio)) (length_ audio - frameSize)
         hopSize 0) emptyStore
  with
  | (s1, Ok _) =>
      (pushOpt dynamicComplexities (dynamicComplexityOf E audio) s1, Ok tt)
  | (s1, Throw) => (s1, Throw)
  | (s1, OutOfFuel) => (s1, OutOfFuel)
  end.
Proof.
  unfold bind at 1. rewrite forLoop_runAll. unfold bind at 1, finish.
  destruct (runAll body _ emptyStore) as [s1 [[]| |]]; try reflexivity.
  rewrite exhausted_enough; [|reflexivity|unfold frameSize; lia].
  rewrite try_push2. reflexivity.
Qed.

(** The arrays and the outcome of the two collection phases. *)
Lemma collect_versions :
  let old := collectV1 E audio sampleRate (Z.to_nat (length_ audio))
               emptyStore in
  let new := collect E audio sampleRate (Z.to_nat (length_ audio))
               emptyStore in
  snd old = snd new /\
  forall f : series, inV1 f = true -> fst old f = fst new f.
Proof.
  cbv zeta. unfold collectV1, collect. rewrite !loop_then_dynamic.
  destruct (runAll_framesV1
              (offsetsFrom (Z.to_nat (length_ audio))
                 (length_ audio - frameSize) hopSize 0) emptyStore)
    as (s1 & -> & Hs1).
  destruct (runAll_frames E audio sampleRate
              (offsetsFrom (Z.to_nat (length_ audio))
                 (length_ audio - frameSize) hopSize 0) emptyStore)
    as (s2 & -> & Hs2).
  assert (Hagree : forall f : series, inV1 f = true -> s1 f = s2 f).
  { intros f Hf. rewrite Hs1, Hs2, Hf. reflexivity. }
  destruct (forallb (prepared E audio) _).
  - cbn [fst snd]. split; [reflexivity|].
    intros f Hf. rewrite !pushOpt_get. now rewrite (Hagree f Hf).
  - cbn [fst snd]. split; [reflexivity|exact Hagree].
Qed.

End VersionFacts.

Lemma computeScores_versions (s1 s2 : Store) :
  (forall f : series, inV1 f = true -> s1 f = s2 f) ->
  labelled (computeScores s2) =
  labelledV1 (computeScoresV1 s1)
  ++ [ ("High-Low Bal:   "%string, highLowBalance (computeScores s2));
       ("Density:        "%string, densityScore (computeScores s2)) ].
Proof.
  intros H. unfold labelled, labelledV1, computeScores, computeScoresV1.
  cbn [aggressivenessScore tonalityScore softnessScore
       aggressivenessScoreV1 tonalityScoreV1 softnessScoreV1 app].
  rewrite !H by reflexivity. reflexivity.
Qed.

Lemma logLines_app (l1 l2 : list (string * num)) :
  fst (logLines l1) = firstn (List.length l1) (fst (logLines (l1 ++ l2))) /\
  (snd (logLines (l1 ++ l2)) = Ok tt -> snd (logLines l1) = Ok tt).
Proof.
  induction l1 as [|[label score] l1 [IH1 IH2]]; cbn [logLines app].
  - split; reflexivity.
  - destruct (createBar score) as [bar|]; [|split; [reflexivity|discriminate]].
    destruct (logLines l1) as [o1 r1], (logLines (l1 ++ l2)) as [o r].
    cbn [fst snd List.length firstn] in *. split; [now rewrite IH1|exact IH2].
Qed.

(** X18: The later version extends the earlier one conservatively: on the same
    essentia, buffer and sample rate, the lines the earlier version prints
    (Aggressiveness, Tonality, Softness, with their bars and scores) are the
    first three lines the later version prints, and whenever the later
    version completes, so does the earlier one. *)
Theorem later_version_extends_earlier (E : Essentia) (audio : list num)
  (sampleRate : num) :
  fst (measureAudioCharacteristicsV1 E audio sampleRate)
    = firstn 3 (fst (measureAudioCharacteristics E audio sampleRate)) /\
  (snd (measureAudioCharacteristics E audio sampleRate) = Ok tt ->
   snd (measureAudioCharacteristicsV1 E audio sampleRate) = Ok tt).
Proof.
  destruct (collect_versions E audio sampleRate) as [Hr Hs].
  unfold measureAudioCharacteristicsV1, measureAudioCharacteristics.
  destruct (collectV1 E audio sampleRate (Z.to_nat (length_ audio)) emptyStore)
    as [s1 r1].
  destruct (collect E audio sampleRate (Z.to_nat (length_ audio)) emptyStore)
    as [s2 r2].
  cbn [fst snd] in Hr, Hs. subst r2.
  destruct r1 as [[]| |]; [|split; [reflexivity|discriminate]
                           |split; [reflexivity|discriminate]].
  rewrite (computeScores_versions s1 s2 Hs).
  apply logLines_app.
Qed.

Lemma later_version_extends_earlier_witness :
  snd (measureAudioCharacteristicsV1 toyEssentia (toyAudio 10000) (Fin 44100))
    = Ok tt.
Proof.
  apply (proj2 (later_version_extends_earlier toyEssentia (toyAudio 10000)
                  (Fin 44100))).
  vm_compute. reflexivity.
Defined.

(** ** The script *)

Lemma logLines_length (l : list (string * num)) :
  (List.length (fst (logLines l)) <= List.length l)%nat.
Proof.
  pose proof (logLines_shape l) as H. destruct (logLines l) as [lines r].
  destruct H as (H1 & _). cbn [fst].
  apply (f_equal (@List.length string)) in H1.
  rewrite length_map, length_firstn, length_map in H1. lia.
Qed.

(** X19: The exit status tells whether the report is complete.  The script
    always returns; it exits with status 0 exactly when it has printed all
    five lines, and with status 1 after fewer.  Nothing at all is printed when
    the file cannot be read or decoded, when it has no channel, or when the
    Essentia object cannot be built. *)
Theorem main_exit_status (N : Node) (argv : list string) :
  let lines := fst (main N argv) in
  let status := snd (main N argv) in
  ((status = Some 0%Z /\ List.length lines = 5%nat) \/
   (status = Some 1%Z /\ (List.length lines < 5)%nat)) /\
  (loadWav N (filepathOf argv) = None \/
   (exists sampleRate, loadWav N (filepathOf argv) = Some (None, sampleRate)) \/
   newEssentia N = None ->
   main N argv = ([], Some 1%Z)).
Proof.
  cbv zeta. unfold main, measureFile. split.
  - destruct (loadWav N (filepathOf argv)) as [[audio sampleRate]|];
      [|right; split; [reflexivity|simpl; lia]].
    destruct (newEssentia N) as [E|]; [|right; split; [reflexivity|simpl; lia]].
    destruct audio as [samples|]; [|right; split; [reflexivity|simpl; lia]].
    pose proof (measureAudioCharacteristics_returns E samples sampleRate)
      as Hret.
    unfold measureAudioCharacteristics in *.
    destruct (collect E samples sampleRate (Z.to_nat (length_ samples))
                emptyStore) as [s [[]| |]];
      [|right; split; [reflexivity|simpl; lia]|now cbn in Hret].
    pose proof (logLines_shape (labelled (computeScores s))) as Hsh.
    pose proof (logLines_length (labelled (computeScores s))) as Hlen.
    destruct (logLines (labelled (computeScores s))) as [lines r].
    destruct Hsh as (_ & _ & H3 & H4 & _). cbn [fst snd] in *.
    change (List.length (labelled (computeScores s))) with 5%nat in *.
    destruct r as [[]| |]; [left|right|congruence].
    + split; [reflexivity|]. now apply H3.
    + split; [reflexivity|].
      assert (List.length lines <> 5%nat); [|lia].
      intros C. apply H3 in C. discriminate.
  - intros [H|[[sampleRate H]|H]].
    + now rewrite H.
    + now rewrite H; destruct (newEssentia N).
    + rewrite H. now destruct (loadWav N (filepathOf argv)) as [[? ?]|].
Qed.

Lemma main_exit_status_witness :
  main toyNode ["node"; "MAIN.cjs"; "missing.wav"]%string = ([], Some 1%Z) /\
  snd (main toyNode ["node"; "MAIN.cjs"]%string) = Some 0%Z.
Proof.
  split.
  - apply (proj2 (main_exit_status toyNode
                    ["node"; "MAIN.cjs"; "missing.wav"]%string)).
    left. reflexivity.
  - vm_compute. reflexivity.
Defined.

(** X20: For a [Buffer] whose view lies inside its [ArrayBuffer], [loadWav]
    decodes exactly the [byteLength] bytes of the view, whatever else the
    [ArrayBuffer] holds, and returns the first channel and the sample rate of
    the decoded file. *)
Theorem loadWav_decodes_view (N : Node) (filepath : string) (b : Buffer) :
  readFileSync N filepath = Some b ->
  (0 <= byteOffset b)%Z -> (0 <= byteLength b)%Z ->
  (byteOffset b + byteLength b <= length_ (buffer b))%Z ->
  let bytes :=
    firstn (Z.to_nat (byteLength b)) (skipn (Z.to_nat (byteOffset b)) (buffer b))
  in
  length_ bytes = byteLength b /\
  loadWav N filepath =
  match decode N bytes with
  | Some wav => Some (nth_error (channelData wav) 0, wavSampleRate wav)
  | None => None
  end.
Proof.
  intros Hr Ho Hl Hb bytes. split.
  - unfold bytes, length_ in *. rewrite length_firstn, length_skipn. lia.
  - unfold loadWav. rewrite Hr. cbv zeta.
    rewrite slice_range by lia.
    replace (byteOffset b + byteLength b - byteOffset b)%Z
      with (byteLength b) by lia.
    reflexivity.
Qed.

Lemma loadWav_decodes_view_witness :
  loadWav toyNode "./song.wav" = Some (Some (toyAudio 10000), Fin 44100).
Proof.
  destruct (loadWav_decodes_view toyNode "./song.wav"
              (mkBuffer [Byte.x00; Byte.x01; Byte.x02; Byte.x03] 1 2))
    as [_ H].
  - reflexivity.
  - vm_compute. discriminate.
  - vm_compute. discriminate.
  - vm_compute. discriminate.
  - rewrite H. reflexivity.
Defined.

Lemma flags_total (l : list num) :
  Forall isFlag l ->
  Qtotal (map val l) == inject_Z (Z.of_nat (countSilent l)).
Proof.
  unfold countSilent.
  induction 1 as [|x l [->| ->] _ IH]; cbn [map Qtotal fold_right filter val].
  - reflexivity.
  - change (Qeq_bool 0 1) with false. cbv iota.
    fold (Qtotal (map val l)). rewrite IH. ring.
  - change (Qeq_bool 1 1) with true. cbv iota. cbn [List.length].
    fold (Qtotal (map val l)). rewrite IH.
    rewrite Nat2Z.inj_succ, <- Z.add_1_r, inject_Z_plus.
    change (inject_Z 1) with 1. ring.
Qed.

(** X21: The silence ratio of a run is the fraction of the frames with an
    energy reading that read below 0.001: the number of flags equal to 1
    over the number of flags, and 0 when no frame has a reading. *)
Theorem silence_ratio_is_fraction (E : Essentia) (audio : list num)
  (sampleRate : num) (fuel : nat) (s' : Store) (r : result unit) :
  collect E audio sampleRate fuel emptyStore = (s', r) ->
  silenceRatioOf (s' frameSilences) =n=
  match s' frameSilences with
  | [] => Fin 0
  | _ => Fin (inject_Z (Z.of_nat (countSilent (s' frameSilences)))
              / inject_Z (length_ (s' frameSilences)))
  end.
Proof.
  intros C.
  assert (HF : Forall isFlag (s' frameSilences)).
  { rewrite (collect_store E audio sampleRate _ _ _ C) by discriminate.
    apply collected_silence_flags. }
  destruct (isFlag_bounds _ HF) as (Hfin & _ & _).
  rewrite silenceRatioOf_mean, calculateStats_mean by assumption.
  pose proof (flags_total _ HF) as Ht.
  destruct (s' frameSilences) as [|x l] eqn:El; [reflexivity|].
  cbn [num_eq]. rewrite meanQ_summaryMean.
  unfold summaryMean, arithmeticMean. now rewrite Ht.
Qed.

Lemma silence_ratio_is_fraction_witness :
  silenceRatioOf
    (fst (collect brokenEssentia (Fin 7 :: toyAudio 9999) (Fin 44100)
            (Z.to_nat (length_ (Fin 7 :: toyAudio 9999))) emptyStore)
       frameSilences)
  =n= Fin 1.
Proof.
  destruct (collect brokenEssentia (Fin 7 :: toyAudio 9999) (Fin 44100)
              (Z.to_nat (length_ (Fin 7 :: toyAudio 9999))) emptyStore)
    as [s' r] eqn:C.
  pose proof (silence_ratio_is_fraction _ _ _ _ _ _ C) as H.
  assert (Hs : s' frameSilences = [Fin 1]).
  { rewrite (collect_store _ _ _ _ _ _ C) by discriminate.
    vm_compute. reflexivity. }
  cbn [fst]. rewrite Hs in *. exact H.
Defined.
